(** * Stopwatch web app: timer engine, session store and persistence

    A shallow embedding of [src/App.tsx].  The React component keeps five
    pieces of state ([time], [isRunning], [lapTimes], [lastLapTime],
    [sessions]) and one slot of [localStorage]; every handler of the
    component becomes a function on that state, and the two persistence
    effects become functions on the storage slot.

    Conventions.
    - A JavaScript [number] that the component manipulates is always an
      integer well inside the safe range (a multiple of the 10 ms tick, a
      lap counter, a clock reading): it is modelled by [Z], and [%] by
      [Z.rem].  [formatTime] is also given times that were read from the
      storage: its divisions are those of double-precision numbers
      (module [Double]).
    - A JavaScript string is the list of its UTF-16 code units. *)

From Stdlib Require Import ZArith NArith List Bool Lia String Ascii Decimal DecimalZ DecimalPos.
Import ListNotations.

Open Scope Z_scope.

#[local] Set Warnings "-register-all".

(* ================================================================== *)
(** ** JavaScript strings *)

Module JsString.

Definition code_unit := N.
Definition jsstring := list code_unit.

(** A string literal of the source, as code units. *)
Definition js (s : string) : jsstring :=
  List.map N_of_ascii (list_ascii_of_string s).

Definition eqb (a b : jsstring) : bool :=
  if list_eq_dec N.eq_dec a b then true else false.

Definition digit_unit (d : N) : code_unit := (48 + d)%N.

(** Decimal digits, most significant first. *)
Fixpoint uint_units (d : Decimal.uint) : jsstring :=
  match d with
  | Nil => []
  | D0 r => digit_unit 0 :: uint_units r
  | D1 r => digit_unit 1 :: uint_units r
  | D2 r => digit_unit 2 :: uint_units r
  | D3 r => digit_unit 3 :: uint_units r
  | D4 r => digit_unit 4 :: uint_units r
  | D5 r => digit_unit 5 :: uint_units r
  | D6 r => digit_unit 6 :: uint_units r
  | D7 r => digit_unit 7 :: uint_units r
  | D8 r => digit_unit 8 :: uint_units r
  | D9 r => digit_unit 9 :: uint_units r
  end.

(** [n.toString()] for an integer [n]: an optional minus sign and the
    decimal digits without leading zeros. *)
Definition Number_toString (z : Z) : jsstring :=
  match Z.to_int z with
  | Pos d => uint_units d
  | Neg d => 45%N :: uint_units d
  end.

(** [s.padStart(targetLength, fill)] for a one-unit [fill]. *)
Definition padStart (targetLength : nat) (fill : code_unit) (s : jsstring) : jsstring :=
  if (List.length s <? targetLength)%nat
  then List.repeat fill (targetLength - List.length s) ++ s
  else s.

Definition is_digit (c : code_unit) : bool := ((48 <=? c) && (c <=? 57))%N.

(** Reading a run of decimal digits back: [None] on the empty string or on a
    unit that is not a digit. *)
Fixpoint units_uint (s : jsstring) : option Decimal.uint :=
  match s with
  | [] => Some Nil
  | c :: r =>
      match units_uint r with
      | None => None
      | Some d =>
          match (c - 48)%N with
          | 0%N => if (48 <=? c)%N then Some (D0 d) else None
          | 1%N => Some (D1 d)
          | 2%N => Some (D2 d)
          | 3%N => Some (D3 d)
          | 4%N => Some (D4 d)
          | 5%N => Some (D5 d)
          | 6%N => Some (D6 d)
          | 7%N => Some (D7 d)
          | 8%N => Some (D8 d)
          | 9%N => Some (D9 d)
          | _ => None
          end
      end
  end.

Definition digits_value (s : jsstring) : option Z :=
  match s with
  | [] => None
  | _ => option_map Z.of_uint (units_uint s)
  end.

End JsString.
Import JsString.

(* ================================================================== *)
(** ** Data model *)

(** [interface LapTime { id: number; time: number; lapTime: number }] *)
Module LapTime.
Record t := mk {
  id : Z;
  time : Z;
  lapTime : Z
}.
End LapTime.

(** [interface Session { id: string; date: string; totalTime: number;
    lapTimes: LapTime[] }] *)
Module Session.
Record t := mk {
  id : jsstring;
  date : jsstring;
  totalTime : Z;
  lapTimes : list LapTime.t
}.
End Session.

(** The [useState] cells of [App].  [showHistory] only opens and closes the
    history dialog and is left out. *)
Record AppState := mkApp {
  time : Z;
  isRunning : bool;
  lapTimes : list LapTime.t;
  lastLapTime : Z;
  sessions : list Session.t
}.

(** The values passed to [useState] at the first render. *)
Definition initialState : AppState := mkApp 0 false [] 0 [].

(* ================================================================== *)
(** ** Formatting *)

(** Integers as double-precision numbers.  An integer is a number of the
    language when it has at most 53 significant bits (and is below
    [2^1024]); on such numbers [%] is exact, and [a / b] is the quotient
    rounded to the nearest number, ties to the even mantissa.  The divisors
    of [formatTime] are 1000, 60 and 10, so no quotient of a non-zero number
    is too small or too large to be rounded this way. *)
Module Double.

Definition max_safe : Z := 9007199254740991.

Definition is_safe (z : Z) : bool := (- max_safe <=? z) && (z <=? max_safe).

Definition is_double (z : Z) : bool :=
  let a := Z.abs z in
  if a <=? max_safe then true
  else (a mod 2 ^ (Z.log2 a - 52) =? 0) && (Z.log2 a <? 1024).

(** The integer nearest to [n / d], the even one of two at the same
    distance, for [0 <= n] and [0 < d]. *)
Definition round_half_even (n d : Z) : Z :=
  let q := n / d in
  let r := n mod d in
  if 2 * r <? d then q
  else if d <? 2 * r then q + 1
  else if Z.even q then q else q + 1.

(** The integer [L] with [2^L <= a / b < 2^(L+1)], for [0 < a] and
    [0 < b]. *)
Definition binary_exponent (a b : Z) : Z :=
  if b <=? a then Z.log2 (a / b) else - Z.log2_up ((b + a - 1) / a).

(** [a / b] for [0 < b]: the mantissa [m] and the exponent [e] of the
    result [m * 2^e], a mantissa of 53 bits. *)
Definition div (a b : Z) : Z * Z :=
  if a =? 0 then (0, 0)
  else
    let e := binary_exponent (Z.abs a) b - 52 in
    let m := if 0 <=? e then round_half_even (Z.abs a) (b * 2 ^ e)
             else round_half_even (Z.abs a * 2 ^ (- e)) b in
    (Z.sgn a * m, e).

(** [Math.floor] of [m * 2^e]. *)
Definition floor (x : Z * Z) : Z :=
  let (m, e) := x in
  if 0 <=? e then m * 2 ^ e else m / 2 ^ (- e).

(** [Math.floor(a / b)] *)
Definition floor_div (a b : Z) : Z := floor (div a b).

End Double.

(** [formatTime(milliseconds)] for an integer [milliseconds].  The result is
    [None] where this model does not say what the source prints: when
    [milliseconds] is not a number of the language, and when the minutes are
    beyond the safe range, where [toString] no longer prints every digit. *)
Definition formatTime (milliseconds : Z) : option jsstring :=
  if Double.is_double milliseconds then
    let totalSeconds := Double.floor_div milliseconds 1000 in
    let minutes := Double.floor_div totalSeconds 60 in
    let seconds := Z.rem totalSeconds 60 in
    let ms := Double.floor_div (Z.rem milliseconds 1000) 10 in
    if Double.is_safe minutes then
      Some (padStart 2 48%N (Number_toString minutes) ++ js ":"
              ++ padStart 2 48%N (Number_toString seconds) ++ js "."
              ++ padStart 2 48%N (Number_toString ms))
    else None
  else None.

(* ================================================================== *)
(** ** Derived statistics and badges *)

(** [Math.min(x, ...xs)] and [Math.max(x, ...xs)] with at least one argument. *)
Definition Math_min (x : Z) (xs : list Z) : Z := fold_left Z.min xs x.
Definition Math_max (x : Z) (xs : list Z) : Z := fold_left Z.max xs x.

(** [getFastest] and [getSlowest]: [None] stands for [null]. *)
Definition getFastest (laps : list LapTime.t) : option Z :=
  match List.map LapTime.lapTime laps with
  | [] => None
  | x :: xs => Some (Math_min x xs)
  end.

Definition getSlowest (laps : list LapTime.t) : option Z :=
  match List.map LapTime.lapTime laps with
  | [] => None
  | x :: xs => Some (Math_max x xs)
  end.

(** [n === v] for a number [n] and a value [v] that is a number or [null]. *)
Definition strict_eq (n : Z) (v : option Z) : bool :=
  match v with
  | Some m => n =? m
  | None => false
  end.

(** The two badges of a row of the lap table:
    [lap.lapTime === fastest] and
    [lap.lapTime === slowest && lapTimes.length > 1]. *)
Definition badgeFastest (lapTimes : list LapTime.t) (lap : LapTime.t) : bool :=
  strict_eq (LapTime.lapTime lap) (getFastest lapTimes).

Definition badgeSlowest (lapTimes : list LapTime.t) (lap : LapTime.t) : bool :=
  strict_eq (LapTime.lapTime lap) (getSlowest lapTimes)
  && (1 <? List.length lapTimes)%nat.

(* ================================================================== *)
(** ** Handlers

    A handler is a closure over the state of the render that created it.
    It reads that state and queues updates; React applies the queue, in
    order, to produce the state of the next render. *)

Inductive Update :=
| SetTime (f : Z -> Z)
| SetIsRunning (b : bool)
| SetLapTimes (f : list LapTime.t -> list LapTime.t)
| SetLastLapTime (z : Z)
| SetSessions (f : list Session.t -> list Session.t).

Definition apply_update (s : AppState) (u : Update) : AppState :=
  match u with
  | SetTime f => mkApp (f (time s)) (isRunning s) (lapTimes s) (lastLapTime s) (sessions s)
  | SetIsRunning b => mkApp (time s) b (lapTimes s) (lastLapTime s) (sessions s)
  | SetLapTimes f => mkApp (time s) (isRunning s) (f (lapTimes s)) (lastLapTime s) (sessions s)
  | SetLastLapTime z => mkApp (time s) (isRunning s) (lapTimes s) z (sessions s)
  | SetSessions f => mkApp (time s) (isRunning s) (lapTimes s) (lastLapTime s) (f (sessions s))
  end.

Definition apply_updates (us : list Update) (s : AppState) : AppState :=
  fold_left apply_update us s.

(** A call of [setSessions] always passes a fresh array, so the dependency
    [[sessions]] of the saving effect has changed at the next render. *)
Definition is_SetSessions (u : Update) : bool :=
  match u with
  | SetSessions _ => true
  | _ => false
  end.

Definition handleStartStop (s : AppState) : list Update :=
  [SetIsRunning (negb (isRunning s))].

(** The callback of [setInterval].  The interval exists exactly while the
    rendered [isRunning] is true: the effect on [[isRunning]] creates it and
    clears it. *)
Definition tick (s : AppState) : list Update :=
  if isRunning s then [SetTime (fun prevTime => prevTime + 10)] else [].

(** [now] is the value of [Date.now()] and [iso] that of
    [new Date().toISOString()] when the handler runs. *)
Definition saveSession (now : Z) (iso : jsstring) (s : AppState) : list Update :=
  if 0 <? time s then
    let newSession :=
      Session.mk (Number_toString now) iso (time s) (lapTimes s) in
    [SetSessions (fun prev => newSession :: prev)]
  else [].

Definition handleReset (now : Z) (iso : jsstring) (s : AppState) : list Update :=
  saveSession now iso s
    ++ [SetIsRunning false; SetTime (fun _ => 0); SetLapTimes (fun _ => []);
        SetLastLapTime 0].

Definition handleLap (s : AppState) : list Update :=
  if isRunning s then
    let lapTime := time s - lastLapTime s in
    let newLap :=
      LapTime.mk (Z.of_nat (List.length (lapTimes s)) + 1) (time s) lapTime in
    [SetLapTimes (fun prev => newLap :: prev); SetLastLapTime (time s)]
  else [].

Definition deleteSession (sessionId : jsstring) : list Update :=
  [SetSessions
     (List.filter (fun session => negb (JsString.eqb (Session.id session) sessionId)))].

(** [clearAllHistory] also calls [localStorage.removeItem] while it runs;
    see [storage_after_handler]. *)
Definition clearAllHistory : list Update :=
  [SetSessions (fun _ => [])].

(* ================================================================== *)
(** ** JSON

    [JSON.parse] and [JSON.stringify] are built into the language; the
    component calls them on the stored text and on [sessions].  [parse]
    follows the JSON grammar of ECMA-404, on which the built-in is defined. *)

Module JSON.

(** A number carries the decimal value [mantissa * 10 ^ exponent] of its
    literal. *)
Inductive value :=
| JNull
| JBool (b : bool)
| JNum (mantissa exponent : Z)
| JStr (s : jsstring)
| JArr (elements : list value)
| JObj (members : list (jsstring * value)).

(** *** Lexical pieces *)

Definition is_ws (c : code_unit) : bool :=
  ((c =? 32) || (c =? 9) || (c =? 10) || (c =? 13))%N.

Fixpoint skip_ws (s : jsstring) : jsstring :=
  match s with
  | c :: r => if is_ws c then skip_ws r else s
  | [] => []
  end.

Definition hex_value (c : code_unit) : option N :=
  if ((48 <=? c) && (c <=? 57))%N then Some (c - 48)%N
  else if ((65 <=? c) && (c <=? 70))%N then Some (c - 55)%N
  else if ((97 <=? c) && (c <=? 102))%N then Some (c - 87)%N
  else None.

Definition hex4 (h1 h2 h3 h4 : code_unit) : option code_unit :=
  match hex_value h1, hex_value h2, hex_value h3, hex_value h4 with
  | Some a, Some b, Some c, Some d => Some (((a * 16 + b) * 16 + c) * 16 + d)%N
  | _, _, _, _ => None
  end.

(** The unit after a backslash, except [u]. *)
Definition simple_escape (e : code_unit) : option code_unit :=
  if (e =? 34)%N then Some 34%N            (* quotation mark *)
  else if (e =? 92)%N then Some 92%N       (* reverse solidus *)
  else if (e =? 47)%N then Some 47%N       (* solidus *)
  else if (e =? 98)%N then Some 8%N        (* b: backspace *)
  else if (e =? 102)%N then Some 12%N      (* f: form feed *)
  else if (e =? 110)%N then Some 10%N      (* n: line feed *)
  else if (e =? 114)%N then Some 13%N      (* r: carriage return *)
  else if (e =? 116)%N then Some 9%N       (* t: tab *)
  else None.

Definition cons_fst (c : code_unit) (r : option (jsstring * jsstring))
  : option (jsstring * jsstring) :=
  match r with
  | Some (str, rest) => Some (c :: str, rest)
  | None => None
  end.

(** The characters of a string literal after its opening quote: the decoded
    string and the input after the closing quote. *)
Fixpoint parse_chars (s : jsstring) : option (jsstring * jsstring) :=
  match s with
  | [] => None
  | c :: r =>
      if (c =? 34)%N then Some ([], r)
      else if (c =? 92)%N then
        match r with
        | [] => None
        | e :: r1 =>
            if (e =? 117)%N then
              match r1 with
              | h1 :: h2 :: h3 :: h4 :: r2 =>
                  match hex4 h1 h2 h3 h4 with
                  | Some u => cons_fst u (parse_chars r2)
                  | None => None
                  end
              | _ => None
              end
            else
              match simple_escape e with
              | Some u => cons_fst u (parse_chars r1)
              | None => None
              end
        end
      else if (c <? 32)%N then None
      else cons_fst c (parse_chars r)
  end.

Fixpoint span_digits (s : jsstring) : jsstring * jsstring :=
  match s with
  | c :: r =>
      if is_digit c then let (d, rest) := span_digits r in (c :: d, rest)
      else ([], s)
  | [] => ([], [])
  end.

Definition digits_Z (d : jsstring) : Z :=
  match units_uint d with
  | Some u => Z.of_uint u
  | None => 0
  end.

Definition is_nil {A} (l : list A) : bool :=
  match l with [] => true | _ => false end.

(** [-? int frac? exp?] *)
Definition parse_number (s : jsstring) : option (value * jsstring) :=
  let (negative, s1) :=
    match s with
    | c :: r => if (c =? 45)%N then (true, r) else (false, s)
    | [] => (false, s)
    end in
  let int_part :=
    match s1 with
    | c :: r =>
        if (c =? 48)%N then Some ([c], r)
        else if is_digit c then Some (span_digits s1)
        else None
    | [] => None
    end in
  match int_part with
  | None => None
  | Some (i, s2) =>
      let frac_part :=
        match s2 with
        | c :: r =>
            if (c =? 46)%N then
              let (f, rest) := span_digits r in
              if is_nil f then None else Some (f, rest)
            else Some ([], s2)
        | [] => Some ([], s2)
        end in
      match frac_part with
      | None => None
      | Some (f, s3) =>
          let exp_part :=
            match s3 with
            | c :: r =>
                if ((c =? 101) || (c =? 69))%N then
                  let (eneg, r') :=
                    match r with
                    | g :: r0 =>
                        if (g =? 45)%N then (true, r0)
                        else if (g =? 43)%N then (false, r0)
                        else (false, r)
                    | [] => (false, r)
                    end in
                  let (e, rest) := span_digits r' in
                  if is_nil e then None
                  else Some (if eneg then - digits_Z e else digits_Z e, rest)
                else Some (0, s3)
            | [] => Some (0, s3)
            end in
          match exp_part with
          | None => None
          | Some (e, s4) =>
              let m := digits_Z (i ++ f) in
              Some (JNum (if negative then - m else m)
                         (e - Z.of_nat (List.length f)), s4)
          end
      end
  end.

Fixpoint strip_prefix (p s : jsstring) : option jsstring :=
  match p, s with
  | [], _ => Some s
  | a :: p', b :: s' => if (a =? b)%N then strip_prefix p' s' else None
  | _ :: _, [] => None
  end.

(** *** Values *)

Inductive presult :=
| POk (v : value) (rest : jsstring)
| PSyntaxError
| POutOfFuel.

(** Recursive descent.  [parse_elements] reads the elements of an array
    after its opening bracket and [parse_members] the members of an object
    after its opening brace, both non-empty.  Every call burns one unit of
    fuel; [parse] gives enough of it (see [parse_value_fuel]). *)
Fixpoint parse_value (fuel : nat) (s : jsstring) : presult :=
  match fuel with
  | O => POutOfFuel
  | S fuel' =>
      match skip_ws s with
      | [] => PSyntaxError
      | c :: r =>
          if (c =? 91)%N then                       (* [ *)
            match skip_ws r with
            | d :: r' =>
                if (d =? 93)%N then POk (JArr []) r'
                else parse_elements fuel' r []
            | [] => PSyntaxError
            end
          else if (c =? 123)%N then                 (* { *)
            match skip_ws r with
            | d :: r' =>
                if (d =? 125)%N then POk (JObj []) r'
                else parse_members fuel' r []
            | [] => PSyntaxError
            end
          else if (c =? 34)%N then                  (* string *)
            match parse_chars r with
            | Some (str, rest) => POk (JStr str) rest
            | None => PSyntaxError
            end
          else if (c =? 116)%N then                 (* true *)
            match strip_prefix (js "rue") r with
            | Some rest => POk (JBool true) rest
            | None => PSyntaxError
            end
          else if (c =? 102)%N then                 (* false *)
            match strip_prefix (js "alse") r with
            | Some rest => POk (JBool false) rest
            | None => PSyntaxError
            end
          else if (c =? 110)%N then                 (* null *)
            match strip_prefix (js "ull") r with
            | Some rest => POk JNull rest
            | None => PSyntaxError
            end
          else
            match parse_number (c :: r) with
            | Some (v, rest) => POk v rest
            | None => PSyntaxError
            end
      end
  end

with parse_elements (fuel : nat) (s : jsstring) (acc : list value) : presult :=
  match fuel with
  | O => POutOfFuel
  | S fuel' =>
      match parse_value fuel' s with
      | POk v r =>
          match skip_ws r with
          | c :: r' =>
              if (c =? 44)%N then parse_elements fuel' r' (v :: acc)
              else if (c =? 93)%N then POk (JArr (List.rev (v :: acc))) r'
              else PSyntaxError
          | [] => PSyntaxError
          end
      | e => e
      end
  end

with parse_members (fuel : nat) (s : jsstring) (acc : list (jsstring * value))
  : presult :=
  match fuel with
  | O => POutOfFuel
  | S fuel' =>
      match skip_ws s with
      | c :: r =>
          if (c =? 34)%N then
            match parse_chars r with
            | Some (key, r1) =>
                match skip_ws r1 with
                | d :: r2 =>
                    if (d =? 58)%N then
                      match parse_value fuel' r2 with
                      | POk v r3 =>
                          match skip_ws r3 with
                          | g :: r4 =>
                              if (g =? 44)%N
                              then parse_members fuel' r4 ((key, v) :: acc)
                              else if (g =? 125)%N
                              then POk (JObj (List.rev ((key, v) :: acc))) r4
                              else PSyntaxError
                          | [] => PSyntaxError
                          end
                      | e => e
                      end
                    else PSyntaxError
                | [] => PSyntaxError
                end
            | None => PSyntaxError
            end
          else PSyntaxError
      | [] => PSyntaxError
      end
  end.

Definition fuel_for (s : jsstring) : nat := 2 * List.length s + 2.

(** [JSON.parse(text)]: [None] stands for the [SyntaxError] it throws. *)
Definition parse (text : jsstring) : option value :=
  match parse_value (fuel_for text) text with
  | POk v rest => if is_nil (skip_ws rest) then Some v else None
  | _ => None
  end.

(** Property lookup on a parsed object: of two members with the same key
    the later one is the property. *)
Fixpoint get (key : jsstring) (members : list (jsstring * value)) : option value :=
  match members with
  | [] => None
  | (k, v) :: r =>
      match get key r with
      | Some v' => Some v'
      | None => if JsString.eqb k key then Some v else None
      end
  end.

(** *** Serialisation *)

Definition hex_digit (d : N) : code_unit :=
  if (d <? 10)%N then (48 + d)%N else (87 + d)%N.

(** [\uXXXX] with lower-case digits. *)
Definition unicode_escape (c : code_unit) : jsstring :=
  [92; 117; hex_digit (c / 4096 mod 16); hex_digit (c / 256 mod 16);
   hex_digit (c / 16 mod 16); hex_digit (c mod 16)]%N.

Definition is_high_surrogate (c : code_unit) : bool :=
  ((55296 <=? c) && (c <=? 56319))%N.
Definition is_low_surrogate (c : code_unit) : bool :=
  ((56320 <=? c) && (c <=? 57343))%N.

Definition quote_unit (c : code_unit) : jsstring :=
  if (c =? 8)%N then js "\b"
  else if (c =? 9)%N then js "\t"
  else if (c =? 10)%N then js "\n"
  else if (c =? 12)%N then js "\f"
  else if (c =? 13)%N then js "\r"
  else if (c =? 34)%N then [92; 34]%N
  else if (c =? 92)%N then [92; 92]%N
  else if (c <? 32)%N then unicode_escape c
  else [c].

(** The body of [QuoteJSONString]: a surrogate is copied when it is half of
    a pair and escaped when it stands alone. *)
Fixpoint quote_units (s : jsstring) : jsstring :=
  match s with
  | [] => []
  | c :: r =>
      if is_high_surrogate c then
        match r with
        | d :: r' =>
            if is_low_surrogate d then c :: d :: quote_units r'
            else unicode_escape c ++ quote_units r
        | [] => unicode_escape c
        end
      else if is_low_surrogate c then unicode_escape c ++ quote_units r
      else quote_unit c ++ quote_units r
  end.

Definition quote (s : jsstring) : jsstring :=
  34%N :: quote_units s ++ [34%N].

(** [a,b,c] *)
Fixpoint comma_separated (items : list jsstring) : jsstring :=
  match items with
  | [] => []
  | [x] => x
  | x :: r => x ++ 44%N :: comma_separated r
  end.

Definition stringify_LapTime (lap : LapTime.t) : jsstring :=
  js "{" ++ quote (js "id") ++ js ":" ++ Number_toString (LapTime.id lap)
    ++ js "," ++ quote (js "time") ++ js ":" ++ Number_toString (LapTime.time lap)
    ++ js "," ++ quote (js "lapTime") ++ js ":" ++ Number_toString (LapTime.lapTime lap)
    ++ js "}".

Definition stringify_Session (x : Session.t) : jsstring :=
  js "{" ++ quote (js "id") ++ js ":" ++ quote (Session.id x)
    ++ js "," ++ quote (js "date") ++ js ":" ++ quote (Session.date x)
    ++ js "," ++ quote (js "totalTime") ++ js ":" ++ Number_toString (Session.totalTime x)
    ++ js "," ++ quote (js "lapTimes") ++ js ":"
    ++ js "[" ++ comma_separated (List.map stringify_LapTime (Session.lapTimes x)) ++ js "]"
    ++ js "}".

(** [JSON.stringify(sessions)] for an array of sessions whose properties
    were created in the order of the object literal of [saveSession]. *)
Definition stringify (sessions : list Session.t) : jsstring :=
  js "[" ++ comma_separated (List.map stringify_Session sessions) ++ js "]".

(** The units that follow a value in what [stringify] writes: a comma, a
    closing bracket or a closing brace. *)
Definition closes (g : code_unit) : Prop := g = 44%N \/ g = 93%N \/ g = 125%N.

(** The value that [JSON.parse] gives back for such an array. *)
Definition of_LapTime (lap : LapTime.t) : value :=
  JObj [(js "id", JNum (LapTime.id lap) 0);
        (js "time", JNum (LapTime.time lap) 0);
        (js "lapTime", JNum (LapTime.lapTime lap) 0)].

Definition of_Session (x : Session.t) : value :=
  JObj [(js "id", JStr (Session.id x));
        (js "date", JStr (Session.date x));
        (js "totalTime", JNum (Session.totalTime x) 0);
        (js "lapTimes", JArr (List.map of_LapTime (Session.lapTimes x)))].

Definition of_sessions (sessions : list Session.t) : value :=
  JArr (List.map of_Session sessions).

End JSON.
Import JSON.

(* ================================================================== *)
(** ** Persistence

    [storage] is what [localStorage.getItem('stopwatch-sessions')] returns:
    [None] for [null], when the key is absent. *)

Definition storage := option jsstring.

Inductive JsError := SyntaxError.

(** The outcome of running a piece of code: a value, or a thrown error. *)
Inductive completion (A : Type) :=
| Normal (a : A)
| Throw (e : JsError).
Arguments Normal {A} a.
Arguments Throw {A} e.

Definition try_catch {A} (body : completion A) (handler : JsError -> completion A)
  : completion A :=
  match body with
  | Normal a => Normal a
  | Throw e => handler e
  end.

Definition JSON_parse (text : jsstring) : completion JSON.value :=
  match JSON.parse text with
  | Some v => Normal v
  | None => Throw SyntaxError
  end.

(** What the loading effect did: the argument it passed to [setSessions], if
    it called it, and whether it wrote to [console.error]. *)
Record Loaded := mkLoaded {
  setSessions_arg : option JSON.value;
  console_error : bool
}.

(** The effect that runs once, after the first render.  An empty string is
    falsy, like [null]. *)
Definition loadEffect (savedSessions : storage) : completion Loaded :=
  match savedSessions with
  | Some text =>
      if is_nil text then Normal (mkLoaded None false)
      else
        try_catch
          (match JSON_parse text with
           | Normal v => Normal (mkLoaded (Some v) false)
           | Throw e => Throw e
           end)
          (fun error => Normal (mkLoaded None true))
  | None => Normal (mkLoaded None false)
  end.

(** The value of [sessions] at the render that follows the loading effect:
    the argument of [setSessions], or else the initial [[]]. *)
Definition load (savedSessions : storage) : completion JSON.value :=
  match loadEffect savedSessions with
  | Normal l =>
      Normal (match setSessions_arg l with
              | Some v => v
              | None => JSON.of_sessions (sessions initialState)
              end)
  | Throw e => Throw e
  end.

(** The effect on [[sessions]]: [localStorage.setItem(key, JSON.stringify(sessions))]. *)
Definition saveEffect (sessions : list Session.t) : storage :=
  Some (JSON.stringify sessions).

(* ================================================================== *)
(** ** Events

    The page and its storage slot, and the events that reach the component:
    the three buttons, the interval, and the two buttons of the history. *)

Record Browser := mkBrowser {
  app : AppState;
  stored : storage
}.

Inductive Event :=
| StartStop
| Tick
| Lap
| Reset (now : Z) (iso : jsstring)
| DeleteSession (sessionId : jsstring)
| ClearAllHistory.

Definition handler (e : Event) (s : AppState) : list Update :=
  match e with
  | StartStop => handleStartStop s
  | Tick => tick s
  | Lap => handleLap s
  | Reset now iso => handleReset now iso s
  | DeleteSession sessionId => deleteSession sessionId
  | ClearAllHistory => clearAllHistory
  end.

(** What the handler itself does to the storage while it runs:
    [clearAllHistory] calls [localStorage.removeItem]. *)
Definition storage_after_handler (e : Event) (st : storage) : storage :=
  match e with
  | ClearAllHistory => None
  | _ => st
  end.

(** The effects of the render that follows: the saving effect runs when
    [sessions] was set. *)
Definition storage_after_effects (us : list Update) (s' : AppState) (st : storage)
  : storage :=
  if existsb is_SetSessions us then saveEffect (sessions s') else st.

(** One event, from the handler to the end of the effects of the next
    render. *)
Definition dispatch (e : Event) (b : Browser) : Browser :=
  let us := handler e (app b) in
  let s' := apply_updates us (app b) in
  mkBrowser s' (storage_after_effects us s' (storage_after_handler e (stored b))).

Definition run (es : list Event) (b : Browser) : Browser :=
  fold_left (fun b e => dispatch e b) es b.

(** A page that has just been opened on a given storage slot, before the
    loading effect. *)
Definition opened (st : storage) : Browser := mkBrowser initialState st.

(* ================================================================== *)
(** ** Vocabulary of the properties *)

Definition sum_splits (laps : list LapTime.t) : Z :=
  fold_right (fun lap acc => LapTime.lapTime lap + acc) 0 laps.

(** Laps are stored most recent first: the lap recorded before the head is
    the next element. *)
Fixpoint split_chain (laps : list LapTime.t) : bool :=
  match laps with
  | [] => true
  | lap :: older =>
      (LapTime.lapTime lap =?
         LapTime.time lap - match older with
                            | [] => 0
                            | previous :: _ => LapTime.time previous
                            end)
      && split_chain older
  end.

(** The value of [time] when the most recent lap of the run in progress was
    recorded, observed while the events [es] are replayed from [b]. *)
Fixpoint time_at_last_lap (es : list Event) (b : Browser) (mark : option Z)
  : option Z :=
  match es with
  | [] => mark
  | e :: es' =>
      let mark' :=
        match e with
        | Lap => if isRunning (app b) then Some (time (app b)) else mark
        | Reset _ _ => None
        | _ => mark
        end in
      time_at_last_lap es' (dispatch e b) mark'
  end.

(** [n; n-1; ...; 1] *)
Fixpoint countdown (n : nat) : list Z :=
  match n with
  | O => []
  | S k => Z.of_nat n :: countdown k
  end.

Fixpoint non_increasing (l : list Z) : bool :=
  match l with
  | a :: (b :: _) as r => (b <=? a) && non_increasing r
  | _ => true
  end.

(** The clock readings of the resets of a trace, in order. *)
Fixpoint reset_clocks (es : list Event) : list Z :=
  match es with
  | [] => []
  | Reset now _ :: es' => now :: reset_clocks es'
  | _ :: es' => reset_clocks es'
  end.

Definition session_ids (b : Browser) : list jsstring :=
  List.map Session.id (sessions (app b)).

(** The shape of section 6 of the specification for the stored value: a
    sequence of objects with [id] and [date] strings, a [totalTime] number
    and a [lapTimes] sequence of objects with [id], [time] and [lapTime]
    numbers. *)
Module Shape.

Definition is_number (v : option JSON.value) : bool :=
  match v with Some (JNum _ _) => true | _ => false end.

Definition is_string (v : option JSON.value) : bool :=
  match v with Some (JStr _) => true | _ => false end.

Definition is_LapTime (v : JSON.value) : bool :=
  match v with
  | JObj ms =>
      is_number (JSON.get (js "id") ms) && is_number (JSON.get (js "time") ms)
      && is_number (JSON.get (js "lapTime") ms)
  | _ => false
  end.

Definition is_Session (v : JSON.value) : bool :=
  match v with
  | JObj ms =>
      is_string (JSON.get (js "id") ms) && is_string (JSON.get (js "date") ms)
      && is_number (JSON.get (js "totalTime") ms)
      && match JSON.get (js "lapTimes") ms with
         | Some (JArr laps) => forallb is_LapTime laps
         | _ => false
         end
  | _ => false
  end.

Definition is_Session_list (v : JSON.value) : bool :=
  match v with
  | JArr l => forallb is_Session l
  | _ => false
  end.

(** A stored value fails the shape when it is absent, is not JSON, or is
    JSON of another shape. *)
Definition fails (st : storage) : bool :=
  match st with
  | None => true
  | Some text =>
      match JSON.parse text with
      | Some v => negb (is_Session_list v)
      | None => true
      end
  end.

End Shape.

(** What every state of the engine satisfies. *)
Record engine_inv (s : AppState) : Prop := mkInv {
  inv_bounds : 0 <= lastLapTime s <= time s;
  inv_head : match lapTimes s with
             | [] => lastLapTime s = 0
             | lap :: _ => LapTime.time lap = lastLapTime s
             end;
  inv_sum : sum_splits (lapTimes s) = lastLapTime s;
  inv_chain : split_chain (lapTimes s) = true;
  inv_splits : Forall (fun lap => 0 <= LapTime.lapTime lap) (lapTimes s);
  inv_ids : List.map LapTime.id (lapTimes s) = countdown (List.length (lapTimes s));
  inv_times : non_increasing (List.map LapTime.time (lapTimes s)) = true
}.

(** The mark kept by [time_at_last_lap] is [lastLapTime] as long as the run
    in progress has a lap. *)
Definition mark_of (s : AppState) : option Z :=
  match lapTimes s with
  | [] => None
  | _ :: _ => Some (lastLapTime s)
  end.

(** *** Sample data *)

(** Four laps with splits 500, 300, 300 and 800, most recent first. *)
Definition laps_500_300_300_800 : list LapTime.t :=
  [LapTime.mk 4 1900 800; LapTime.mk 3 1100 300; LapTime.mk 2 800 300;
   LapTime.mk 1 500 500].

Definition sample_session : Session.t :=
  Session.mk (js "1700000000000") (js "2023-11-14T22:13:20.000Z") 1900
    laps_500_300_300_800.

(** A paused page with a run of 1.9 s on the clock and one stored session. *)
Definition sample_browser : Browser :=
  mkBrowser (mkApp 1900 false laps_500_300_300_800 1900 [sample_session])
            (saveEffect [sample_session]).

(* ================================================================== *)
(** ** The rest of the component *)

(** *** Buttons and labels *)

(** [disabled={!isRunning}] on the lap button and [disabled={time === 0}]
    on the reset button. *)
Definition lapDisabled (s : AppState) : bool := negb (isRunning s).
Definition resetDisabled (s : AppState) : bool := time s =? 0.

(** The label under the clock:
    [isRunning ? 'Running' : time > 0 ? 'Paused' : 'Ready']. *)
Definition statusLabel (s : AppState) : jsstring :=
  if isRunning s then js "Running"
  else if 0 <? time s then js "Paused"
  else js "Ready".

(** The counter on the history button: absent without sessions, otherwise
    [sessions.length > 9 ? '9+' : sessions.length]. *)
Definition historyBadge (sessions : list Session.t) : option jsstring :=
  if (0 <? List.length sessions)%nat then
    Some (if (9 <? List.length sessions)%nat then js "9+"
          else Number_toString (Z.of_nat (List.length sessions)))
  else None.

(** The colour of a row of laps, in the lap table and in the history:
    [lap.lapTime === fastest ? green : lap.lapTime === slowest ? red : none]. *)
Inductive RowStyle := Green | Red | Plain.

Definition rowStyle (fastest slowest : option Z) (lap : LapTime.t) : RowStyle :=
  if strict_eq (LapTime.lapTime lap) fastest then Green
  else if strict_eq (LapTime.lapTime lap) slowest then Red
  else Plain.

(** The row of [lap] in the table of [laps]: [fastest] and [slowest] are
    those of the same sequence. *)
Definition rowStyleIn (laps : list LapTime.t) (lap : LapTime.t) : RowStyle :=
  rowStyle (getFastest laps) (getSlowest laps) lap.

(** *** The interval

    The effect on [[isRunning]] with its cleanup, on the timers of the
    window.  A timer is known by the number that [setInterval] returned;
    [intervalRef] starts as [null] and is never set back to it. *)
Module Interval.

Record Timers := mk {
  active : list N;
  next_id : N;
  intervalRef : option N
}.

Definition setInterval (ts : Timers) : N * Timers :=
  (next_id ts, mk (next_id ts :: active ts) (next_id ts + 1)%N (intervalRef ts)).

Definition clearInterval (id : N) (ts : Timers) : Timers :=
  mk (List.filter (fun x => negb (x =? id)%N) (active ts)) (next_id ts)
     (intervalRef ts).

(** [if (intervalRef.current) { clearInterval(intervalRef.current); }]:
    [null] and [0] are falsy. *)
Definition clear_current (ts : Timers) : Timers :=
  match intervalRef ts with
  | Some id => if (id =? 0)%N then ts else clearInterval id ts
  | None => ts
  end.

(** The body of the effect. *)
Definition effect (isRunning : bool) (ts : Timers) : Timers :=
  if isRunning then
    let (id, ts') := setInterval ts in
    mk (active ts') (next_id ts') (Some id)
  else clear_current ts.

(** The function that the effect returns. *)
Definition cleanup (ts : Timers) : Timers := clear_current ts.

(** A render after which [isRunning] differs runs the cleanup of the
    previous effect and then the effect again. *)
Definition rerender (before after : bool) (ts : Timers) : Timers :=
  if Bool.eqb before after then ts else effect after (cleanup ts).

End Interval.

(** The page with its timers. *)
Record Page := mkPage {
  browser : Browser;
  timers : Interval.Timers
}.

Inductive Button :=
| ClickStartStop
| ClickLap
| ClickReset (now : Z) (iso : jsstring)
| ClickDelete (sessionId : jsstring)
| ClickClearAll.

Definition event_of (bt : Button) : Event :=
  match bt with
  | ClickStartStop => StartStop
  | ClickLap => Lap
  | ClickReset now iso => Reset now iso
  | ClickDelete sessionId => DeleteSession sessionId
  | ClickClearAll => ClearAllHistory
  end.

(** What happens on a page: a click, or the callback of the timer [id]
    coming due.  A timer that has been cleared has no callback to run. *)
Inductive PageEvent :=
| Click (bt : Button)
| Fire (id : N).

Definition page_step (pe : PageEvent) (p : Page) : Page :=
  match pe with
  | Click bt =>
      let b' := dispatch (event_of bt) (browser p) in
      mkPage b' (Interval.rerender (isRunning (app (browser p)))
                                   (isRunning (app b')) (timers p))
  | Fire id =>
      if existsb (N.eqb id) (Interval.active (timers p)) then
        mkPage (mkBrowser
                  (apply_updates [SetTime (fun prevTime => prevTime + 10)]
                                 (app (browser p)))
                  (stored (browser p)))
               (timers p)
      else p
  end.

Definition page_run (pes : list PageEvent) (p : Page) : Page :=
  fold_left (fun p pe => page_step pe p) pes p.

(** A page after its first render: the effect has run with [isRunning]
    false.  [first_id] is the number the window gives to its next timer. *)
Definition page_opened (st : storage) (first_id : N) : Page :=
  mkPage (opened st) (Interval.effect false (Interval.mk [] first_id None)).

(** Leaving the page runs the cleanup. *)
Definition unmount (p : Page) : Interval.Timers := Interval.cleanup (timers p).

(** *** Opening the page

    The effects of the first render run in the order of the source: the
    loading effect reads the storage and may queue [setSessions]; the saving
    effect then writes the [sessions] of that render, which is empty.  If
    [setSessions] was queued, the next render has the loaded value, and its
    saving effect writes it back.

    The state holds sessions with their fields in the order of the object
    literal of [saveSession], and numbers in the safe range: [mount] is
    [None] when the loaded value is anything else. *)

Definition safe_integer (z : Z) : bool :=
  (- 9007199254740991 <=? z) && (z <=? 9007199254740991).

Definition to_LapTime (v : JSON.value) : option LapTime.t :=
  match v with
  | JObj [(k1, JNum a 0); (k2, JNum b 0); (k3, JNum c 0)] =>
      if JsString.eqb k1 (js "id") && JsString.eqb k2 (js "time")
         && JsString.eqb k3 (js "lapTime")
         && safe_integer a && safe_integer b && safe_integer c
      then Some (LapTime.mk a b c)
      else None
  | _ => None
  end.

Fixpoint to_list {A} (f : JSON.value -> option A) (l : list JSON.value)
  : option (list A) :=
  match l with
  | [] => Some []
  | v :: r =>
      match f v, to_list f r with
      | Some x, Some xs => Some (x :: xs)
      | _, _ => None
      end
  end.

Definition to_Session (v : JSON.value) : option Session.t :=
  match v with
  | JObj [(k1, JStr i); (k2, JStr d); (k3, JNum t 0); (k4, JArr laps)] =>
      if JsString.eqb k1 (js "id") && JsString.eqb k2 (js "date")
         && JsString.eqb k3 (js "totalTime") && JsString.eqb k4 (js "lapTimes")
         && safe_integer t
      then option_map (Session.mk i d t) (to_list to_LapTime laps)
      else None
  | _ => None
  end.

Definition to_sessions (v : JSON.value) : option (list Session.t) :=
  match v with
  | JArr l => to_list to_Session l
  | _ => None
  end.

Definition mount (st : storage) : option Browser :=
  match loadEffect st with
  | Normal l =>
      let st1 := saveEffect (sessions initialState) in
      match setSessions_arg l with
      | None => Some (mkBrowser initialState st1)
      | Some v =>
          match to_sessions v with
          | Some ss =>
              let s' := apply_updates [SetSessions (fun _ => ss)] initialState in
              Some (mkBrowser s' (saveEffect (sessions s')))
          | None => None
          end
      end
  | Throw _ => None
  end.

(** *** More vocabulary *)

Definition safe_LapTime (lap : LapTime.t) : bool :=
  safe_integer (LapTime.id lap) && safe_integer (LapTime.time lap)
  && safe_integer (LapTime.lapTime lap).

Definition safe_Session (x : Session.t) : bool :=
  safe_integer (Session.totalTime x) && forallb safe_LapTime (Session.lapTimes x).

(** The stored text is the serialisation of the history in memory. *)
Definition in_sync (b : Browser) : Prop :=
  stored b = saveEffect (sessions (app b)).

Definition is_engine_event (e : Event) : bool :=
  match e with
  | StartStop | Tick | Lap => true
  | _ => false
  end.

Definition is_store_event (e : Event) : bool :=
  match e with
  | DeleteSession _ | ClearAllHistory => true
  | _ => false
  end.

(** The ticks of a trace that come while the clock runs, counted from the
    last reset; [running] and [n] are the flag and the count so far. *)
Fixpoint counted_ticks (es : list Event) (running : bool) (n : Z) : Z :=
  match es with
  | [] => n
  | StartStop :: es' => counted_ticks es' (negb running) n
  | Tick :: es' => counted_ticks es' running (if running then n + 1 else n)
  | Reset _ _ :: es' => counted_ticks es' false 0
  | _ :: es' => counted_ticks es' running n
  end.

(** The timers of a page in order: one live timer, the one [intervalRef]
    holds, while the clock runs, and none otherwise. *)
Definition timers_in_order (running : bool) (ts : Interval.Timers) : Prop :=
  Interval.next_id ts <> 0%N
  /\ (forall id, Interval.intervalRef ts = Some id ->
                 id <> 0%N /\ (id < Interval.next_id ts)%N)
  /\ (if running
      then exists id, Interval.intervalRef ts = Some id
                      /\ Interval.active ts = [id]
      else Interval.active ts = []).

(** The events of the component that a sequence of page events amounts to:
    a click is the event of its button, and the callback of a live timer is a
    tick. *)
Fixpoint trace_of (pes : list PageEvent) (p : Page) : list Event :=
  match pes with
  | [] => []
  | pe :: pes' =>
      match pe with
      | Click bt => [event_of bt]
      | Fire id =>
          if existsb (N.eqb id) (Interval.active (timers p)) then [Tick] else []
      end ++ trace_of pes' (page_step pe p)
  end.

(** What a session saved by [saveSession] looks like. *)
Record session_ok (x : Session.t) : Prop := mkSessionOk {
  ok_total : 0 < Session.totalTime x;
  ok_chain : split_chain (Session.lapTimes x) = true;
  ok_sum : sum_splits (Session.lapTimes x) <= Session.totalTime x;
  ok_ids : List.map LapTime.id (Session.lapTimes x)
           = countdown (List.length (Session.lapTimes x));
  ok_laps : Forall (fun lap => 0 <= LapTime.lapTime lap
                               /\ 0 <= LapTime.time lap <= Session.totalTime x)
                   (Session.lapTimes x)
}.

(* ================================================================== *)
(** * Properties *)

(** ** Decimal strings *)

Lemma units_uint_uint_units (d : Decimal.uint) :
  units_uint (uint_units d) = Some d.
Proof.
  induction d; simpl; try rewrite IHd; reflexivity.
Qed.

Lemma uint_units_length (d : Decimal.uint) :
  List.length (uint_units d) = Decimal.nb_digits d.
Proof.
  induction d; simpl; congruence.
Qed.

Lemma uint_units_inj (d d' : Decimal.uint) :
  uint_units d = uint_units d' -> d = d'.
Proof.
  intros H.
  assert (E : Some d = Some d')
    by (rewrite <- (units_uint_uint_units d), <- (units_uint_uint_units d'), H; reflexivity).
  congruence.
Qed.

Lemma uint_units_head_digit (d : Decimal.uint) (c : code_unit) (r : jsstring) :
  uint_units d = c :: r -> is_digit c = true.
Proof.
  destruct d; simpl; intros H; inversion H; reflexivity.
Qed.

Lemma Number_toString_inj (a b : Z) :
  Number_toString a = Number_toString b -> a = b.
Proof.
  unfold Number_toString. intros H.
  apply DecimalZ.to_int_inj.
  destruct (Z.to_int a) as [da|da], (Z.to_int b) as [db|db].
  - f_equal. now apply uint_units_inj.
  - exfalso. destruct (uint_units da) as [|c r] eqn:E; [discriminate|].
    apply uint_units_head_digit in E. inversion H; subst. discriminate.
  - exfalso. destruct (uint_units db) as [|c r] eqn:E; [discriminate|].
    apply uint_units_head_digit in E. inversion H; subst. discriminate.
  - f_equal. inversion H. now apply uint_units_inj.
Qed.

Lemma Number_toString_nonneg (n : Z) :
  0 <= n ->
  exists d, Number_toString n = uint_units d /\ d <> Nil /\ Z.of_uint d = n.
Proof.
  intros Hn. unfold Number_toString.
  destruct n as [|p|p]; simpl.
  - exists (D0 Nil). repeat split; discriminate.
  - exists (Pos.to_uint p). repeat split.
    + apply DecimalPos.Unsigned.to_uint_nonnil.
    + unfold Z.of_uint. now rewrite DecimalPos.Unsigned.of_to.
  - lia.
Qed.

Lemma digits_value_uint_units (d : Decimal.uint) :
  d <> Nil -> digits_value (uint_units d) = Some (Z.of_uint d).
Proof.
  intros Hd. unfold digits_value.
  destruct (uint_units d) eqn:E.
  - destruct d; simpl in E; congruence.
  - rewrite <- E, units_uint_uint_units. reflexivity.
Qed.

Lemma digits_value_Number_toString (n : Z) :
  0 <= n -> digits_value (Number_toString n) = Some n.
Proof.
  intros Hn. destruct (Number_toString_nonneg n Hn) as (d & -> & Hd & <-).
  now apply digits_value_uint_units.
Qed.

(** Two digits hold the numbers below one hundred, and only those. *)
Lemma nb_digits_small (d : Decimal.uint) :
  (Decimal.nb_digits d <= 2)%nat -> Z.of_uint d < 100.
Proof.
  destruct d as [|d|d|d|d|d|d|d|d|d|d];
    try (destruct d as [|d|d|d|d|d|d|d|d|d|d]);
    try (destruct d; simpl; intros H; try lia);
    intros; vm_compute; reflexivity.
Qed.

Lemma Number_toString_length_wide (n : Z) :
  100 <= n -> (2 < List.length (Number_toString n))%nat.
Proof.
  intros Hn.
  destruct (Number_toString_nonneg n ltac:(lia)) as (d & -> & Hd & E).
  rewrite uint_units_length.
  destruct (Nat.le_gt_cases (Decimal.nb_digits d) 2) as [H|H]; [|exact H].
  apply nb_digits_small in H. lia.
Qed.

Lemma padStart_wide (s : jsstring) :
  (2 <= List.length s)%nat -> padStart 2 48%N s = s.
Proof.
  intros H. unfold padStart.
  destruct (Nat.ltb_spec (List.length s) 2); [lia | reflexivity].
Qed.

Lemma padStart_length (s : jsstring) :
  (2 <= List.length (padStart 2 48%N s))%nat.
Proof.
  unfold padStart.
  destruct (Nat.ltb_spec (List.length s) 2); [|assumption].
  rewrite length_app, repeat_length. lia.
Qed.

Lemma padStart_length_short (s : jsstring) :
  (List.length s <= 2)%nat -> List.length (padStart 2 48%N s) = 2%nat.
Proof.
  intros H. unfold padStart.
  destruct (Nat.ltb_spec (List.length s) 2).
  - rewrite length_app, repeat_length. lia.
  - lia.
Qed.

Lemma digits_value_zero_cons (d : Decimal.uint) :
  d <> Nil ->
  digits_value (48%N :: uint_units d) = Some (Z.of_uint d).
Proof.
  intros Hd. unfold digits_value. simpl.
  rewrite units_uint_uint_units. reflexivity.
Qed.

Lemma digits_value_padStart (n : Z) :
  0 <= n -> digits_value (padStart 2 48%N (Number_toString n)) = Some n.
Proof.
  intros Hn.
  destruct (Number_toString_nonneg n Hn) as (d & E & Hd & V).
  unfold padStart. rewrite E, uint_units_length.
  destruct (Nat.ltb_spec (Decimal.nb_digits d) 2) as [H|H].
  - assert (H1 : Decimal.nb_digits d = 1%nat)
      by (destruct d; simpl in *; try congruence; lia).
    rewrite H1. change (repeat 48%N (2 - 1) ++ uint_units d) with (48%N :: uint_units d).
    rewrite digits_value_zero_cons by assumption. congruence.
  - simpl. rewrite digits_value_uint_units by assumption. congruence.
Qed.

Lemma Number_toString_length_small (n : Z) :
  0 <= n < 100 -> (List.length (Number_toString n) <= 2)%nat.
Proof.
  intros Hn.
  assert (H : forallb (fun k => (List.length (Number_toString (Z.of_nat k)) <=? 2)%nat)
                (seq 0 100) = true) by (vm_compute; reflexivity).
  rewrite forallb_forall in H.
  specialize (H (Z.to_nat n)).
  rewrite Z2Nat.id in H by lia.
  apply Nat.leb_le, H, in_seq. lia.
Qed.

(* ================================================================== *)
(** ** Division of doubles *)

Module DoubleFacts.
Import Double.

Lemma round_half_even_near (n d : Z) :
  0 < d ->
  2 * n - d <= 2 * (round_half_even n d * d) <= 2 * n + d
  /\ (n mod d = 0 -> round_half_even n d = n / d).
Proof.
  intros Hd. unfold round_half_even.
  pose proof (Z.div_mod n d ltac:(lia)) as E.
  pose proof (Z.mod_pos_bound n d Hd) as B.
  split.
  - destruct (Z.ltb_spec (2 * (n mod d)) d); [nia|].
    destruct (Z.ltb_spec d (2 * (n mod d))); [nia|].
    destruct (Z.even (n / d)); nia.
  - intros Hz. rewrite Hz.
    destruct (Z.ltb_spec (2 * 0) d); [reflexivity | lia].
Qed.

(** With a scale finer than half the divisor, rounding does not cross an
    integer. *)
Lemma floor_round_scaled (a b P : Z) :
  0 <= a -> 0 < b -> 0 < P -> b < 2 * P ->
  round_half_even (a * P) b / P = a / b.
Proof.
  intros Ha Hb HP Hfine.
  destruct (round_half_even_near (a * P) b Hb) as [[Lo Hi] Hexact].
  pose proof (Z.div_mod a b ltac:(lia)) as E.
  pose proof (Z.mod_pos_bound a b Hb) as B.
  set (m := round_half_even (a * P) b) in *.
  set (n := a / b) in *. set (r := a mod b) in *.
  symmetry. apply Z.div_unique with (r := m - n * P).
  2:{ lia. }
  left. split.
  - destruct (Z.eq_dec r 0) as [Hr|Hr].
    + assert (Hm : (a * P) mod b = 0).
      { replace (a * P) with (n * P * b) by nia. apply Z.mod_mul. lia. }
      apply Hexact in Hm. fold m in Hm.
      assert (m = n * P).
      { rewrite Hm. replace (a * P) with (n * P * b) by nia.
        apply Z.div_mul. lia. }
      lia.
    + assert (2 * (m * b) > 2 * (n * P) * b) by nia. nia.
  - assert (2 * (m * b) < 2 * ((n + 1) * P) * b) by nia. nia.
Qed.

Lemma binary_exponent_lower (a b : Z) :
  0 < a -> 0 < b ->
  let L := binary_exponent a b in
  (0 <= L -> 2 ^ L * b <= a) /\ (L < 0 -> b <= a * 2 ^ (- L)).
Proof.
  intros Ha Hb L. subst L. unfold binary_exponent.
  destruct (Z.leb_spec b a) as [Hle|Hlt].
  - assert (Hq : 0 < a / b) by (apply Z.div_str_pos; lia).
    pose proof (Z.log2_spec (a / b) Hq) as [S1 _].
    pose proof (Z.log2_nonneg (a / b)).
    pose proof (Z.mul_div_le a b Hb).
    split; [intros _; nia | lia].
  - set (c := (b + a - 1) / a).
    assert (Hc : 1 < c).
    { assert (2 <= c) by (subst c; apply Z.div_le_lower_bound; lia). lia. }
    pose proof (Z.log2_up_spec c Hc) as [_ S2].
    pose proof (Z.log2_up_pos c Hc).
    split; [lia|]. intros _. rewrite Z.opp_involutive.
    assert (Hca : b <= c * a).
    { subst c. pose proof (Z.div_mod (b + a - 1) a ltac:(lia)).
      pose proof (Z.mod_pos_bound (b + a - 1) a Ha). nia. }
    nia.
Qed.

(** On safe integers the quotient, rounded to a double and floored, is the
    integer quotient. *)
Lemma floor_div_exact (a b : Z) :
  0 <= a <= max_safe -> 0 < b -> floor_div a b = a / b.
Proof.
  intros [Ha Hs] Hb. unfold floor_div, div, max_safe in *.
  destruct (Z.eqb_spec a 0) as [->|Hnz]; [reflexivity|].
  rewrite Z.abs_eq by lia.
  replace (Z.sgn a) with 1 by (symmetry; apply Z.sgn_pos; lia).
  rewrite Z.mul_1_l.
  pose proof (binary_exponent_lower a b ltac:(lia) Hb) as [Lpos Lneg].
  cbv zeta in Lpos, Lneg.
  remember (binary_exponent a b) as L eqn:EL. clear EL.
  unfold floor.
  destruct (Z.leb_spec 0 (L - 52)) as [He|He].
  - (* the quotient is at least 2^52: the divisor is one *)
    assert (HL : 0 <= L) by lia. specialize (Lpos HL).
    assert (P52 : 2 ^ 52 <= 2 ^ L) by (apply Z.pow_le_mono_r; lia).
    assert (P53 : L < 53).
    { destruct (Z.lt_ge_cases L 53); [assumption|].
      assert (2 ^ 53 <= 2 ^ L) by (apply Z.pow_le_mono_r; lia).
      change (2 ^ 53) with 9007199254740992 in *. nia. }
    assert (L = 52) by lia. subst L.
    change (2 ^ 52) with 4503599627370496 in *.
    assert (b = 1) by nia. subst b.
    change (52 - 52) with 0. change (2 ^ 0) with 1.
    destruct (round_half_even_near a (1 * 1) ltac:(lia)) as [_ Hex].
    rewrite Hex by (apply Z.mod_1_r).
    rewrite Z.mul_1_r. reflexivity.
  - set (k := - (L - 52)) in *.
    assert (Hk : 0 < k) by lia.
    assert (HP : 0 < 2 ^ k) by (apply Z.pow_pos_nonneg; lia).
    apply floor_round_scaled; try lia.
    (* a * 2^k >= 2^52 * b, and a < 2^53 *)
    assert (Hlow : 2 ^ 52 * b <= a * 2 ^ k).
    { destruct (Z.lt_ge_cases L 0) as [Hn|Hn].
      - specialize (Lneg Hn).
        replace k with (52 + - L) by lia.
        rewrite Z.pow_add_r by lia. nia.
      - specialize (Lpos Hn).
        assert (E : 2 ^ 52 = 2 ^ L * 2 ^ k).
        { rewrite <- Z.pow_add_r by lia. f_equal. lia. }
        rewrite E.
        assert (0 < 2 ^ L) by (apply Z.pow_pos_nonneg; lia).
        nia. }
    change (2 ^ 52) with 4503599627370496 in Hlow. nia.
Qed.

End DoubleFacts.

(* ================================================================== *)
(** ** Formatting *)

(** On the safe integers [formatTime] is defined, and its fields are those
    of the integer quotients and remainders. *)
Lemma formatTime_safe (x : Z) :
  0 <= x <= Double.max_safe ->
  formatTime x
  = Some (padStart 2 48%N (Number_toString (x / 1000 / 60))
            ++ 58%N :: padStart 2 48%N (Number_toString (Z.rem (x / 1000) 60))
            ++ 46%N :: padStart 2 48%N (Number_toString (Z.rem x 1000 / 10))).
Proof.
  intros Hx. unfold Double.max_safe in Hx.
  assert (Hs : 0 <= x / 1000 <= x).
  { split; [apply Z.div_pos; lia | apply Z.div_le_upper_bound; lia]. }
  assert (Hm : 0 <= x / 1000 / 60 <= x).
  { split; [apply Z.div_pos; lia | apply Z.div_le_upper_bound; lia]. }
  assert (Hr : 0 <= Z.rem x 1000 < 1000).
  { rewrite Z.rem_mod_nonneg by lia. apply Z.mod_pos_bound. lia. }
  unfold formatTime.
  replace (Double.is_double x) with true.
  2:{ unfold Double.is_double, Double.max_safe. rewrite Z.abs_eq by lia.
      destruct (Z.leb_spec x 9007199254740991); [reflexivity | lia]. }
  cbv zeta.
  rewrite (DoubleFacts.floor_div_exact x 1000) by (unfold Double.max_safe; lia).
  rewrite (DoubleFacts.floor_div_exact (x / 1000) 60) by (unfold Double.max_safe; lia).
  rewrite (DoubleFacts.floor_div_exact (Z.rem x 1000) 10)
    by (unfold Double.max_safe; lia).
  replace (Double.is_safe (x / 1000 / 60)) with true.
  2:{ symmetry. unfold Double.is_safe, Double.max_safe.
      apply andb_true_iff. split; apply Z.leb_le; lia. }
  reflexivity.
Qed.

(** C7, as the code has it.  For every integer [x] from zero to the
    greatest safe integer, [formatTime x] is [MM:SS.CC]: the minutes field
    reads [x / 1000 / 60] (not reduced modulo sixty), has at least two digits
    and is the plain decimal numeral, wider than two digits, from one hundred
    minutes on; the seconds field reads [(x / 1000) mod 60] and the
    hundredths field [(x mod 1000) / 10], each on exactly two digits;
    [formatTime 0] is [00:00.00] and [formatTime 61234] is [01:01.23]. *)
Theorem formatTime_fields (x : Z) :
  0 <= x <= Double.max_safe ->
  exists mm ss cc : jsstring,
    formatTime x = Some (mm ++ js ":" ++ ss ++ js "." ++ cc)
    /\ digits_value mm = Some (x / 1000 / 60)
    /\ (2 <= List.length mm)%nat
    /\ (100 <= x / 1000 / 60 ->
        mm = Number_toString (x / 1000 / 60) /\ (2 < List.length mm)%nat)
    /\ digits_value ss = Some ((x / 1000) mod 60)
    /\ List.length ss = 2%nat
    /\ digits_value cc = Some ((x mod 1000) / 10)
    /\ List.length cc = 2%nat
    /\ formatTime 0 = Some (js "00:00.00")
    /\ formatTime 61234 = Some (js "01:01.23").
Proof.
  intros Hx.
  assert (Hs : 0 <= x / 1000) by (apply Z.div_pos; lia).
  assert (Hm : 0 <= x / 1000 / 60) by (apply Z.div_pos; lia).
  assert (Hsec : 0 <= (x / 1000) mod 60 < 60) by (apply Z.mod_pos_bound; lia).
  assert (Hrem : 0 <= x mod 1000 < 1000) by (apply Z.mod_pos_bound; lia).
  assert (Hcc : 0 <= (x mod 1000) / 10 < 100)
    by (split; [apply Z.div_pos; lia | apply Z.div_lt_upper_bound; lia]).
  exists (padStart 2 48%N (Number_toString (x / 1000 / 60))),
         (padStart 2 48%N (Number_toString ((x / 1000) mod 60))),
         (padStart 2 48%N (Number_toString ((x mod 1000) / 10))).
  split; [|repeat split].
  - rewrite (formatTime_safe x Hx).
    rewrite (Z.rem_mod_nonneg (x / 1000) 60) by lia.
    rewrite (Z.rem_mod_nonneg x 1000) by lia.
    reflexivity.
  - now apply digits_value_padStart.
  - apply padStart_length.
  - apply padStart_wide. apply Number_toString_length_wide in H. lia.
  - rewrite padStart_wide; apply Number_toString_length_wide in H; lia.
  - apply digits_value_padStart. lia.
  - apply padStart_length_short, Number_toString_length_small. lia.
  - apply digits_value_padStart. lia.
  - apply padStart_length_short, Number_toString_length_small. lia.
Qed.

(** One hundred minutes: the minutes field widens to three digits. *)
Lemma formatTime_fields_witness :
  exists mm ss cc : jsstring,
    formatTime 6000000 = Some (mm ++ js ":" ++ ss ++ js "." ++ cc)
    /\ digits_value mm = Some (6000000 / 1000 / 60)
    /\ (2 <= List.length mm)%nat
    /\ (100 <= 6000000 / 1000 / 60 ->
        mm = Number_toString (6000000 / 1000 / 60) /\ (2 < List.length mm)%nat)
    /\ digits_value ss = Some ((6000000 / 1000) mod 60)
    /\ List.length ss = 2%nat
    /\ digits_value cc = Some ((6000000 mod 1000) / 10)
    /\ List.length cc = 2%nat
    /\ formatTime 0 = Some (js "00:00.00")
    /\ formatTime 61234 = Some (js "01:01.23").
Proof.
  apply (formatTime_fields 6000000). unfold Double.max_safe. lia.
Defined.

Example formatTime_100_minutes : formatTime 6000000 = Some (js "100:00.00").
Proof. vm_compute. reflexivity. Qed.

(* ================================================================== *)
(** ** Timer engine: single steps *)

Lemma eqb_eq (a b : jsstring) : JsString.eqb a b = true <-> a = b.
Proof.
  unfold JsString.eqb. destruct (list_eq_dec N.eq_dec a b); split; congruence.
Qed.

(** C5.  While [isRunning] is false, the lap button changes nothing: the
    handler queues no update, and the page and its storage after the event
    are the ones before it. *)
Theorem handleLap_paused (b : Browser) :
  isRunning (app b) = false ->
  handleLap (app b) = [] /\ dispatch Lap b = b.
Proof.
  intros H. unfold dispatch, handler, handleLap. rewrite H. simpl.
  split; [reflexivity|]. destruct b as [[] ?]; reflexivity.
Qed.

Lemma handleLap_paused_witness :
  handleLap (app sample_browser) = [] /\ dispatch Lap sample_browser = sample_browser.
Proof.
  apply (handleLap_paused sample_browser). reflexivity.
Defined.

(** C1.  [handleReset] saves a session exactly when [time] is strictly
    positive: then the new session, with [totalTime] the old [time] and
    [lapTimes] the old laps in their order, is put in front of the history,
    which grows by one; otherwise the history and the storage are unchanged.
    In both cases the engine ends stopped, with [time] and [lastLapTime] zero
    and no laps. *)
Theorem handleReset_spec (now : Z) (iso : jsstring) (b : Browser) :
  let b' := dispatch (Reset now iso) b in
  (0 < time (app b) ->
     sessions (app b')
     = Session.mk (Number_toString now) iso (time (app b)) (lapTimes (app b))
         :: sessions (app b)
     /\ List.length (sessions (app b')) = S (List.length (sessions (app b))))
  /\ (time (app b) <= 0 ->
      sessions (app b') = sessions (app b) /\ stored b' = stored b)
  /\ isRunning (app b') = false
  /\ time (app b') = 0
  /\ lapTimes (app b') = []
  /\ lastLapTime (app b') = 0.
Proof.
  unfold dispatch, handler, handleReset, saveSession.
  destruct (Z.ltb_spec 0 (time (app b))) as [H|H]; simpl; repeat split;
    intros; try reflexivity; lia.
Qed.

Lemma handleReset_spec_witness :
  sessions (app (dispatch (Reset 1700000005000 (js "later") ) sample_browser))
  = [Session.mk (js "1700000005000") (js "later") 1900 laps_500_300_300_800;
     sample_session].
Proof.
  apply (handleReset_spec 1700000005000 (js "later") sample_browser).
  simpl. lia.
Defined.

(* ================================================================== *)
(** ** Fastest and slowest *)

Lemma Math_min_le (xs : list Z) (x : Z) :
  Math_min x xs <= x /\ Forall (fun y => Math_min x xs <= y) xs.
Proof.
  unfold Math_min. revert x.
  induction xs as [|a xs IH]; intros x; simpl.
  - split; [lia | constructor].
  - destruct (IH (Z.min x a)) as [H1 H2]. split; [lia|].
    constructor; [lia | exact H2].
Qed.

Lemma Math_min_In (xs : list Z) (x : Z) : In (Math_min x xs) (x :: xs).
Proof.
  unfold Math_min. revert x.
  induction xs as [|a xs IH]; intros x; simpl.
  - now left.
  - destruct (IH (Z.min x a)) as [H|H].
    + destruct (Z.min_spec x a) as [[_ E]|[_ E]]; rewrite E in H |- *;
        rewrite <- H; simpl; auto.
    + simpl in *. tauto.
Qed.

Lemma Math_max_ge (xs : list Z) (x : Z) :
  x <= Math_max x xs /\ Forall (fun y => y <= Math_max x xs) xs.
Proof.
  unfold Math_max. revert x.
  induction xs as [|a xs IH]; intros x; simpl.
  - split; [lia | constructor].
  - destruct (IH (Z.max x a)) as [H1 H2]. split; [lia|].
    constructor; [lia | exact H2].
Qed.

Lemma Math_max_In (xs : list Z) (x : Z) : In (Math_max x xs) (x :: xs).
Proof.
  unfold Math_max. revert x.
  induction xs as [|a xs IH]; intros x; simpl.
  - now left.
  - destruct (IH (Z.max x a)) as [H|H].
    + destruct (Z.max_spec x a) as [[_ E]|[_ E]]; rewrite E in H |- *;
        rewrite <- H; simpl; auto.
    + simpl in *. tauto.
Qed.

Lemma getFastest_Some (laps : list LapTime.t) (m : Z) :
  getFastest laps = Some m <->
  In m (List.map LapTime.lapTime laps)
  /\ Forall (fun l => m <= LapTime.lapTime l) laps.
Proof.
  unfold getFastest. destruct laps as [|l laps]; simpl.
  - split; [discriminate | intros [[] _]].
  - pose proof (Math_min_le (List.map LapTime.lapTime laps) (LapTime.lapTime l)) as [H1 H2].
    pose proof (Math_min_In (List.map LapTime.lapTime laps) (LapTime.lapTime l)) as H3.
    rewrite Forall_map in H2.
    split.
    + intros E. injection E as <-. split; [exact H3 | constructor; assumption].
    + intros [Hin Hall]. f_equal.
      assert (Hle : m <= Math_min (LapTime.lapTime l) (List.map LapTime.lapTime laps)).
      { change (In (Math_min (LapTime.lapTime l) (List.map LapTime.lapTime laps))
                   (List.map LapTime.lapTime (l :: laps))) in H3.
        apply in_map_iff in H3 as (l0 & <- & Hl0).
        rewrite Forall_forall in Hall. now apply Hall. }
      assert (Hge : Math_min (LapTime.lapTime l) (List.map LapTime.lapTime laps) <= m).
      { destruct Hin as [<-|Hin]; [exact H1|].
        apply in_map_iff in Hin as (l0 & <- & Hl0).
        rewrite Forall_forall in H2. now apply H2. }
      lia.
Qed.

Lemma getSlowest_Some (laps : list LapTime.t) (m : Z) :
  getSlowest laps = Some m <->
  In m (List.map LapTime.lapTime laps)
  /\ Forall (fun l => LapTime.lapTime l <= m) laps.
Proof.
  unfold getSlowest. destruct laps as [|l laps]; simpl.
  - split; [discriminate | intros [[] _]].
  - pose proof (Math_max_ge (List.map LapTime.lapTime laps) (LapTime.lapTime l)) as [H1 H2].
    pose proof (Math_max_In (List.map LapTime.lapTime laps) (LapTime.lapTime l)) as H3.
    rewrite Forall_map in H2.
    split.
    + intros E. injection E as <-. split; [exact H3 | constructor; assumption].
    + intros [Hin Hall]. f_equal.
      assert (Hle : Math_max (LapTime.lapTime l) (List.map LapTime.lapTime laps) <= m).
      { change (In (Math_max (LapTime.lapTime l) (List.map LapTime.lapTime laps))
                   (List.map LapTime.lapTime (l :: laps))) in H3.
        apply in_map_iff in H3 as (l0 & <- & Hl0).
        rewrite Forall_forall in Hall. now apply Hall. }
      assert (Hge : m <= Math_max (LapTime.lapTime l) (List.map LapTime.lapTime laps)).
      { destruct Hin as [<-|Hin]; [exact H1|].
        apply in_map_iff in Hin as (l0 & <- & Hl0).
        rewrite Forall_forall in H2. now apply H2. }
      lia.
Qed.

Lemma strict_eq_true (n : Z) (v : option Z) : strict_eq n v = true <-> v = Some n.
Proof.
  destruct v as [m|]; simpl.
  - rewrite Z.eqb_eq. split; congruence.
  - split; discriminate.
Qed.

(** C6.  [getFastest] is the least and [getSlowest] the greatest [lapTime]
    of the sequence, and each is [null] exactly on the empty sequence.  A lap
    of the table carries the fastest badge exactly when no lap has a smaller
    split, and the slowest badge exactly when no lap has a greater split and
    the table has more than one lap; so every lap at the extreme value is
    flagged.  A single lap is flagged fastest and not slowest.  For the
    splits 500, 300, 300, 800 both laps of 300 are flagged fastest and only
    the lap of 800 is flagged slowest. *)
Theorem fastest_slowest_badges (laps : list LapTime.t) :
  (getFastest laps = None <-> laps = [])
  /\ (getSlowest laps = None <-> laps = [])
  /\ (forall m, getFastest laps = Some m <->
        In m (List.map LapTime.lapTime laps)
        /\ Forall (fun l => m <= LapTime.lapTime l) laps)
  /\ (forall m, getSlowest laps = Some m <->
        In m (List.map LapTime.lapTime laps)
        /\ Forall (fun l => LapTime.lapTime l <= m) laps)
  /\ (forall lap, In lap laps ->
        (badgeFastest laps lap = true <->
         Forall (fun l => LapTime.lapTime lap <= LapTime.lapTime l) laps))
  /\ (forall lap, In lap laps ->
        (badgeSlowest laps lap = true <->
         Forall (fun l => LapTime.lapTime l <= LapTime.lapTime lap) laps
         /\ (1 < List.length laps)%nat))
  /\ (forall lap, badgeFastest [lap] lap = true /\ badgeSlowest [lap] lap = false)
  /\ getFastest laps_500_300_300_800 = Some 300
  /\ getSlowest laps_500_300_300_800 = Some 800
  /\ List.map (fun lap => (LapTime.lapTime lap,
                           badgeFastest laps_500_300_300_800 lap,
                           badgeSlowest laps_500_300_300_800 lap))
       laps_500_300_300_800
     = [(800, false, true); (300, true, false); (300, true, false);
        (500, false, false)].
Proof.
  split; [|split; [|split; [|split; [|split; [|split; [|split]]]]]].
  - unfold getFastest. destruct laps; simpl; split; congruence.
  - unfold getSlowest. destruct laps; simpl; split; congruence.
  - apply getFastest_Some.
  - apply getSlowest_Some.
  - intros lap Hin. unfold badgeFastest.
    rewrite strict_eq_true, getFastest_Some. split; [tauto|].
    intros H. split; [now apply in_map | exact H].
  - intros lap Hin. unfold badgeSlowest.
    rewrite andb_true_iff, strict_eq_true, getSlowest_Some, Nat.ltb_lt.
    split; [tauto|]. intros [H1 H2]. repeat split; auto. now apply in_map.
  - intros lap. unfold badgeFastest, badgeSlowest, getFastest, getSlowest. simpl.
    unfold Math_min, Math_max. simpl. rewrite Z.eqb_refl. split; reflexivity.
  - repeat split.
Qed.

(** The table of the sample: the lap of 800 carries the slowest badge. *)
Lemma fastest_slowest_badges_witness :
  badgeSlowest laps_500_300_300_800 (LapTime.mk 4 1900 800) = true.
Proof.
  apply (fastest_slowest_badges laps_500_300_300_800).
  - simpl. auto.
  - split; [|simpl; lia].
    repeat constructor; simpl; lia.
Defined.

(* ================================================================== *)
(** ** Timer engine: reachable states *)

Ltac unfold_dispatch :=
  unfold dispatch, handler, handleStartStop, tick, handleLap, handleReset,
    saveSession, deleteSession, clearAllHistory.

Lemma engine_inv_initial : engine_inv initialState.
Proof.
  constructor; simpl; try reflexivity; try lia. constructor.
Qed.

Lemma engine_inv_dispatch (e : Event) (b : Browser) :
  engine_inv (app b) -> engine_inv (app (dispatch e b)).
Proof.
  intros [Hb Hh Hs Hc Hp Hi Ht].
  destruct b as [[t r laps last ss] st]; simpl in *.
  destruct e; unfold_dispatch; simpl.
  - (* StartStop *) constructor; simpl; assumption.
  - (* Tick *)
    destruct r; simpl; constructor; simpl; try assumption; lia.
  - (* Lap *)
    destruct r; simpl; [|constructor; simpl; assumption].
    constructor; simpl.
    + lia.
    + reflexivity.
    + rewrite Hs. lia.
    + rewrite Hc, andb_true_r. apply Z.eqb_eq.
      destruct laps as [|l laps]; simpl in *; lia.
    + constructor; [simpl; lia | assumption].
    + rewrite Hi. f_equal. lia.
    + destruct laps as [|l laps]; simpl in *; [reflexivity|].
      rewrite Ht, andb_true_r. apply Z.leb_le. lia.
  - (* Reset *)
    destruct (0 <? t); simpl; constructor; simpl; try reflexivity; try lia;
      constructor.
  - (* DeleteSession *) constructor; simpl; assumption.
  - (* ClearAllHistory *) constructor; simpl; assumption.
Qed.

Lemma engine_inv_run (es : list Event) (b : Browser) :
  engine_inv (app b) -> engine_inv (app (run es b)).
Proof.
  unfold run. revert b.
  induction es as [|e es IH]; intros b H; simpl; [assumption|].
  apply IH, engine_inv_dispatch, H.
Qed.

Lemma time_at_last_lap_mark (es : list Event) (b : Browser) :
  engine_inv (app b) ->
  time_at_last_lap es b (mark_of (app b)) = mark_of (app (run es b)).
Proof.
  unfold run. revert b.
  induction es as [|e es IH]; intros b H; simpl; [reflexivity|].
  rewrite <- (IH (dispatch e b)) by (apply engine_inv_dispatch, H).
  f_equal.
  destruct H as [Hb Hh _ _ _ _ _].
  destruct b as [[t r laps last ss] st]; simpl in *.
  destruct e; unfold_dispatch; unfold mark_of; simpl; try reflexivity.
  - destruct r; reflexivity.
  - destruct r; reflexivity.
  - destruct (0 <? t); reflexivity.
Qed.

(** C4.  After any sequence of events on a freshly opened page, if the run
    in progress has a lap, the splits of its laps add up to the value that
    [time] had when the most recent lap was recorded, and each split is the
    cumulative time of its lap minus that of the lap recorded before it
    (zero before the first). *)
Theorem splits_partition_elapsed (es : list Event) (st : storage) :
  lapTimes (app (run es (opened st))) <> [] ->
  time_at_last_lap es (opened st) None
  = Some (sum_splits (lapTimes (app (run es (opened st)))))
  /\ split_chain (lapTimes (app (run es (opened st)))) = true.
Proof.
  intros Hlaps.
  pose proof (engine_inv_run es (opened st) engine_inv_initial) as H.
  pose proof (time_at_last_lap_mark es (opened st) engine_inv_initial) as Hm.
  change (mark_of (app (opened st))) with (@None Z) in Hm.
  rewrite Hm. split; [|apply H].
  unfold mark_of. rewrite (inv_sum _ H).
  destruct (lapTimes (app (run es (opened st)))); congruence.
Qed.

(** Two laps, the second after a pause: splits 20 and 10, time 30 at the
    second lap, and two ticks more on the clock afterwards. *)
Lemma splits_partition_elapsed_witness :
  time_at_last_lap [StartStop; Tick; Tick; Lap; StartStop; Lap; StartStop; Tick; Lap; Tick; Tick]
    (opened None) None
  = Some (sum_splits (lapTimes (app (run
      [StartStop; Tick; Tick; Lap; StartStop; Lap; StartStop; Tick; Lap; Tick; Tick]
      (opened None)))))
  /\ split_chain (lapTimes (app (run
      [StartStop; Tick; Tick; Lap; StartStop; Lap; StartStop; Tick; Lap; Tick; Tick]
      (opened None)))) = true.
Proof.
  apply (splits_partition_elapsed
           [StartStop; Tick; Tick; Lap; StartStop; Lap; StartStop; Tick; Lap; Tick; Tick]
           None).
  vm_compute. discriminate.
Defined.

(** C10.  On every state reached from a freshly opened page, and after any
    further event, [0 <= lastLapTime <= time]; so the split that a lap would
    record is not negative, no recorded split is negative, the identifiers of
    the laps, most recent first, count down from the number of laps to one,
    and their cumulative times do not increase. *)
Theorem engine_invariant (es : list Event) (st : storage) (e : Event) :
  let s := app (run es (opened st)) in
  let s' := app (dispatch e (run es (opened st))) in
  0 <= lastLapTime s <= time s
  /\ 0 <= lastLapTime s' <= time s'
  /\ 0 <= time s - lastLapTime s
  /\ Forall (fun lap => 0 <= LapTime.lapTime lap) (lapTimes s)
  /\ List.map LapTime.id (lapTimes s) = countdown (List.length (lapTimes s))
  /\ non_increasing (List.map LapTime.time (lapTimes s)) = true.
Proof.
  intros s s'.
  pose proof (engine_inv_run es (opened st) engine_inv_initial) as H.
  pose proof (engine_inv_dispatch e _ H) as H'.
  fold s in H. fold s' in H'.
  destruct H as [Hb _ _ _ Hp Hi Ht]. destruct H' as [Hb' _ _ _ _ _ _].
  repeat split; try assumption; lia.
Qed.

(* ================================================================== *)
(** ** JSON: the parser consumes its input and has fuel enough *)

Module JSONFacts.

Lemma skip_ws_length (s : jsstring) :
  (List.length (skip_ws s) <= List.length s)%nat.
Proof.
  induction s as [|c r IH]; simpl; [lia|].
  destruct (is_ws c); simpl; lia.
Qed.

Lemma skip_ws_cons (s : jsstring) (c : code_unit) (r : jsstring) :
  skip_ws s = c :: r -> (List.length r < List.length s)%nat.
Proof.
  intros H. pose proof (skip_ws_length s) as L. rewrite H in L. simpl in L. lia.
Qed.

Lemma cons_fst_Some c o str rest :
  cons_fst c o = Some (str, rest) ->
  exists str', o = Some (str', rest) /\ str = c :: str'.
Proof.
  destruct o as [[a b]|]; simpl; intros H; inversion H; eauto.
Qed.

Lemma parse_chars_length (s str rest : jsstring) :
  parse_chars s = Some (str, rest) -> (List.length rest < List.length s)%nat.
Proof.
  remember (List.length s) as n eqn:Hn.
  revert s str rest Hn.
  induction n as [n IH] using lt_wf_ind. intros s str rest Hn H.
  destruct s as [|c r]; [discriminate|]. simpl in H, Hn.
  destruct (c =? 34)%N.
  { inversion H; subst. simpl. lia. }
  destruct (c =? 92)%N.
  - destruct r as [|e r1]; [discriminate|].
    destruct (e =? 117)%N.
    + destruct r1 as [|h1 [|h2 [|h3 [|h4 r2]]]]; try discriminate.
      destruct (hex4 h1 h2 h3 h4); [|discriminate].
      apply cons_fst_Some in H as (str' & H & _).
      apply (IH (List.length r2)) in H; simpl in *; lia.
    + destruct (simple_escape e); [|discriminate].
      apply cons_fst_Some in H as (str' & H & _).
      apply (IH (List.length r1)) in H; simpl in *; lia.
  - destruct (c <? 32)%N; [discriminate|].
    apply cons_fst_Some in H as (str' & H & _).
    apply (IH (List.length r)) in H; simpl in *; lia.
Qed.

Lemma span_digits_app (s : jsstring) :
  s = fst (span_digits s) ++ snd (span_digits s).
Proof.
  induction s as [|c r IH]; simpl; [reflexivity|].
  destruct (is_digit c); [|reflexivity].
  destruct (span_digits r) as [d rest]. simpl in *. congruence.
Qed.

Lemma span_digits_length (s d rest : jsstring) :
  span_digits s = (d, rest) ->
  List.length s = (List.length d + List.length rest)%nat.
Proof.
  intros H. rewrite (span_digits_app s) at 1. rewrite H. simpl.
  apply length_app.
Qed.

Lemma span_digits_head (c : code_unit) (r d rest : jsstring) :
  is_digit c = true -> span_digits (c :: r) = (d, rest) ->
  (List.length rest <= List.length r)%nat.
Proof.
  simpl. intros -> H. destruct (span_digits r) as [d' rest'] eqn:E.
  inversion H; subst. apply span_digits_length in E. lia.
Qed.

Lemma parse_number_length (s : jsstring) (v : value) (rest : jsstring) :
  parse_number s = Some (v, rest) -> (List.length rest < List.length s)%nat.
Proof.
  unfold parse_number.
  set (sign := match s with
               | c :: r => if (c =? 45)%N then (true, r) else (false, s)
               | [] => (false, s)
               end).
  assert (Hs1 : (List.length (snd sign) <= List.length s)%nat).
  { subst sign. destruct s as [|c r]; simpl; [lia|].
    destruct (c =? 45)%N; simpl; lia. }
  destruct sign as [negative s1]. simpl in Hs1.
  destruct s1 as [|c r]; [discriminate|].
  assert (Hint : forall i s2,
             (if (c =? 48)%N then Some ([c], r)
              else if is_digit c then Some (span_digits (c :: r)) else None)
             = Some (i, s2) -> (List.length s2 <= List.length r)%nat).
  { intros i s2. destruct (c =? 48)%N.
    - intros H; inversion H; subst; lia.
    - destruct (is_digit c) eqn:D; [|discriminate].
      intros H; inversion H as [H1]. now apply (span_digits_head c r i s2). }
  destruct (if (c =? 48)%N then Some ([c], r)
            else if is_digit c then Some (span_digits (c :: r)) else None)
    as [[i s2]|]; [|discriminate].
  specialize (Hint i s2 eq_refl).
  set (frac := match s2 with
               | c0 :: r0 =>
                   if (c0 =? 46)%N then
                     let (f, rest0) := span_digits r0 in
                     if is_nil f then None else Some (f, rest0)
                   else Some ([], s2)
               | [] => Some ([], s2)
               end).
  assert (Hfrac : forall f s3, frac = Some (f, s3) ->
                               (List.length s3 <= List.length s2)%nat).
  { subst frac. intros f s3. destruct s2 as [|c0 r0].
    - intros H; inversion H; subst; lia.
    - destruct (c0 =? 46)%N.
      + destruct (span_digits r0) as [f0 rest0] eqn:E.
        destruct (is_nil f0); [discriminate|].
        intros H; inversion H; subst.
        apply span_digits_length in E. simpl. lia.
      + intros H; inversion H; subst; lia. }
  destruct frac as [[f s3]|]; [|discriminate].
  specialize (Hfrac f s3 eq_refl).
  set (ex := match s3 with
             | c0 :: r0 =>
                 if ((c0 =? 101) || (c0 =? 69))%N then
                   let (eneg, r') :=
                     match r0 with
                     | g :: r1 =>
                         if (g =? 45)%N then (true, r1)
                         else if (g =? 43)%N then (false, r1)
                         else (false, r0)
                     | [] => (false, r0)
                     end in
                   let (e, rest0) := span_digits r' in
                   if is_nil e then None
                   else Some (if eneg then - digits_Z e else digits_Z e, rest0)
                 else Some (0, s3)
             | [] => Some (0, s3)
             end).
  assert (Hex : forall e s4, ex = Some (e, s4) ->
                             (List.length s4 <= List.length s3)%nat).
  { subst ex. intros e s4. destruct s3 as [|c0 r0].
    - intros H; inversion H; subst; lia.
    - destruct ((c0 =? 101) || (c0 =? 69))%N.
      + set (sg := match r0 with
                   | g :: r1 =>
                       if (g =? 45)%N then (true, r1)
                       else if (g =? 43)%N then (false, r1)
                       else (false, r0)
                   | [] => (false, r0)
                   end).
        assert (Hsg : (List.length (snd sg) <= List.length r0)%nat).
        { subst sg. destruct r0 as [|g r1]; simpl; [lia|].
          destruct (g =? 45)%N; simpl; [lia|].
          destruct (g =? 43)%N; simpl; lia. }
        destruct sg as [eneg r']. simpl in Hsg.
        destruct (span_digits r') as [e0 rest0] eqn:E.
        destruct (is_nil e0); [discriminate|].
        intros H; inversion H; subst.
        apply span_digits_length in E. simpl. lia.
      + intros H; inversion H; subst; lia. }
  destruct ex as [[e s4]|]; [|discriminate].
  specialize (Hex e s4 eq_refl).
  intros H; inversion H; subst. simpl in *. lia.
Qed.

Lemma strip_prefix_length (p s rest : jsstring) :
  strip_prefix p s = Some rest -> (List.length rest <= List.length s)%nat.
Proof.
  revert s. induction p as [|a p IH]; intros s; simpl.
  - intros H; inversion H; lia.
  - destruct s as [|b s']; [discriminate|].
    destruct (a =? b)%N; [|discriminate].
    intros H. apply IH in H. simpl. lia.
Qed.

(** One unfolding of each function. *)
Lemma parse_value_S fuel s :
  parse_value (S fuel) s =
  match skip_ws s with
  | [] => PSyntaxError
  | c :: r =>
      if (c =? 91)%N then
        match skip_ws r with
        | d :: r' =>
            if (d =? 93)%N then POk (JArr []) r' else parse_elements fuel r []
        | [] => PSyntaxError
        end
      else if (c =? 123)%N then
        match skip_ws r with
        | d :: r' =>
            if (d =? 125)%N then POk (JObj []) r' else parse_members fuel r []
        | [] => PSyntaxError
        end
      else if (c =? 34)%N then
        match parse_chars r with
        | Some (str, rest) => POk (JStr str) rest
        | None => PSyntaxError
        end
      else if (c =? 116)%N then
        match strip_prefix (js "rue") r with
        | Some rest => POk (JBool true) rest
        | None => PSyntaxError
        end
      else if (c =? 102)%N then
        match strip_prefix (js "alse") r with
        | Some rest => POk (JBool false) rest
        | None => PSyntaxError
        end
      else if (c =? 110)%N then
        match strip_prefix (js "ull") r with
        | Some rest => POk JNull rest
        | None => PSyntaxError
        end
      else
        match parse_number (c :: r) with
        | Some (v, rest) => POk v rest
        | None => PSyntaxError
        end
  end.
Proof. reflexivity. Qed.

Lemma parse_elements_S fuel s acc :
  parse_elements (S fuel) s acc =
  match parse_value fuel s with
  | POk v r =>
      match skip_ws r with
      | c :: r' =>
          if (c =? 44)%N then parse_elements fuel r' (v :: acc)
          else if (c =? 93)%N then POk (JArr (List.rev (v :: acc))) r'
          else PSyntaxError
      | [] => PSyntaxError
      end
  | e => e
  end.
Proof. reflexivity. Qed.

Lemma parse_members_S fuel s acc :
  parse_members (S fuel) s acc =
  match skip_ws s with
  | c :: r =>
      if (c =? 34)%N then
        match parse_chars r with
        | Some (key, r1) =>
            match skip_ws r1 with
            | d :: r2 =>
                if (d =? 58)%N then
                  match parse_value fuel r2 with
                  | POk v r3 =>
                      match skip_ws r3 with
                      | g :: r4 =>
                          if (g =? 44)%N
                          then parse_members fuel r4 ((key, v) :: acc)
                          else if (g =? 125)%N
                          then POk (JObj (List.rev ((key, v) :: acc))) r4
                          else PSyntaxError
                      | [] => PSyntaxError
                      end
                  | e => e
                  end
                else PSyntaxError
            | [] => PSyntaxError
            end
        | None => PSyntaxError
        end
      else PSyntaxError
  | [] => PSyntaxError
  end.
Proof. reflexivity. Qed.

(** A successful parse consumes at least one unit. *)
Lemma parse_consumes (fuel : nat) :
  (forall s v rest, parse_value fuel s = POk v rest ->
                    (List.length rest < List.length s)%nat)
  /\ (forall s acc v rest, parse_elements fuel s acc = POk v rest ->
                           (List.length rest < List.length s)%nat)
  /\ (forall s acc v rest, parse_members fuel s acc = POk v rest ->
                           (List.length rest < List.length s)%nat).
Proof.
  induction fuel as [|fuel (IHv & IHe & IHm)].
  { repeat split; intros; discriminate. }
  repeat split.
  - intros s v rest H. rewrite parse_value_S in H.
    destruct (skip_ws s) as [|c r] eqn:Es; [discriminate|].
    apply skip_ws_cons in Es.
    destruct (c =? 91)%N.
    { destruct (skip_ws r) as [|d r'] eqn:Er; [discriminate|].
      apply skip_ws_cons in Er.
      destruct (d =? 93)%N.
      - inversion H; subst. lia.
      - apply IHe in H. lia. }
    destruct (c =? 123)%N.
    { destruct (skip_ws r) as [|d r'] eqn:Er; [discriminate|].
      apply skip_ws_cons in Er.
      destruct (d =? 125)%N.
      - inversion H; subst. lia.
      - apply IHm in H. lia. }
    destruct (c =? 34)%N.
    { destruct (parse_chars r) as [[str rest']|] eqn:E; [|discriminate].
      apply parse_chars_length in E. inversion H; subst. lia. }
    destruct (c =? 116)%N.
    { destruct (strip_prefix (js "rue") r) eqn:E; [|discriminate].
      apply strip_prefix_length in E. inversion H; subst. lia. }
    destruct (c =? 102)%N.
    { destruct (strip_prefix (js "alse") r) eqn:E; [|discriminate].
      apply strip_prefix_length in E. inversion H; subst. lia. }
    destruct (c =? 110)%N.
    { destruct (strip_prefix (js "ull") r) eqn:E; [|discriminate].
      apply strip_prefix_length in E. inversion H; subst. lia. }
    destruct (parse_number (c :: r)) as [[v' rest']|] eqn:E; [|discriminate].
    apply parse_number_length in E. inversion H; subst. simpl in E. lia.
  - intros s acc v rest H. rewrite parse_elements_S in H.
    destruct (parse_value fuel s) as [v0 r| |] eqn:E; try discriminate.
    apply IHv in E.
    destruct (skip_ws r) as [|c r'] eqn:Er; [discriminate|].
    apply skip_ws_cons in Er.
    destruct (c =? 44)%N.
    + apply IHe in H. lia.
    + destruct (c =? 93)%N; [|discriminate]. inversion H; subst. lia.
  - intros s acc v rest H. rewrite parse_members_S in H.
    destruct (skip_ws s) as [|c r] eqn:Es; [discriminate|].
    apply skip_ws_cons in Es.
    destruct (c =? 34)%N; [|discriminate].
    destruct (parse_chars r) as [[key r1]|] eqn:Ek; [|discriminate].
    apply parse_chars_length in Ek.
    destruct (skip_ws r1) as [|d r2] eqn:E1; [discriminate|].
    apply skip_ws_cons in E1.
    destruct (d =? 58)%N; [|discriminate].
    destruct (parse_value fuel r2) as [v0 r3| |] eqn:E; try discriminate.
    apply IHv in E.
    destruct (skip_ws r3) as [|g r4] eqn:E3; [discriminate|].
    apply skip_ws_cons in E3.
    destruct (g =? 44)%N.
    + apply IHm in H. lia.
    + destruct (g =? 125)%N; [|discriminate]. inversion H; subst. lia.
Qed.

(** With more than twice the length of the input, the fuel does not run
    out. *)
Lemma parse_has_fuel (fuel : nat) :
  (forall s, (2 * List.length s < fuel)%nat -> parse_value fuel s <> POutOfFuel)
  /\ (forall s acc, (2 * List.length s + 1 < fuel)%nat ->
                    parse_elements fuel s acc <> POutOfFuel)
  /\ (forall s acc, (2 * List.length s + 1 < fuel)%nat ->
                    parse_members fuel s acc <> POutOfFuel).
Proof.
  induction fuel as [|fuel (IHv & IHe & IHm)].
  { repeat split; intros; lia. }
  repeat split.
  - intros s Hf. rewrite parse_value_S.
    destruct (skip_ws s) as [|c r] eqn:Es; [discriminate|].
    apply skip_ws_cons in Es.
    destruct (c =? 91)%N.
    { destruct (skip_ws r) as [|d r'] eqn:Er; [discriminate|].
      destruct (d =? 93)%N; [discriminate|]. apply IHe. lia. }
    destruct (c =? 123)%N.
    { destruct (skip_ws r) as [|d r'] eqn:Er; [discriminate|].
      destruct (d =? 125)%N; [discriminate|]. apply IHm. lia. }
    destruct (c =? 34)%N.
    { destruct (parse_chars r) as [[str rest']|]; discriminate. }
    destruct (c =? 116)%N.
    { destruct (strip_prefix (js "rue") r); discriminate. }
    destruct (c =? 102)%N.
    { destruct (strip_prefix (js "alse") r); discriminate. }
    destruct (c =? 110)%N.
    { destruct (strip_prefix (js "ull") r); discriminate. }
    destruct (parse_number (c :: r)) as [[v' rest']|]; discriminate.
  - intros s acc Hf. rewrite parse_elements_S.
    destruct (parse_value fuel s) as [v0 r| |] eqn:E.
    + apply (proj1 (parse_consumes fuel)) in E.
      destruct (skip_ws r) as [|c r'] eqn:Er; [discriminate|].
      apply skip_ws_cons in Er.
      destruct (c =? 44)%N.
      * apply IHe. lia.
      * destruct (c =? 93)%N; discriminate.
    + discriminate.
    + exfalso. apply (IHv s); [lia | exact E].
  - intros s acc Hf. rewrite parse_members_S.
    destruct (skip_ws s) as [|c r] eqn:Es; [discriminate|].
    apply skip_ws_cons in Es.
    destruct (c =? 34)%N; [|discriminate].
    destruct (parse_chars r) as [[key r1]|] eqn:Ek; [|discriminate].
    apply parse_chars_length in Ek.
    destruct (skip_ws r1) as [|d r2] eqn:E1; [discriminate|].
    apply skip_ws_cons in E1.
    destruct (d =? 58)%N; [|discriminate].
    destruct (parse_value fuel r2) as [v0 r3| |] eqn:E.
    + apply (proj1 (parse_consumes fuel)) in E.
      destruct (skip_ws r3) as [|g r4] eqn:E3; [discriminate|].
      apply skip_ws_cons in E3.
      destruct (g =? 44)%N.
      * apply IHm. lia.
      * destruct (g =? 125)%N; discriminate.
    + discriminate.
    + exfalso. apply (IHv r2); [lia | exact E].
Qed.

(** More fuel does not change a result that did not run out. *)
Lemma parse_fuel_mono (fuel : nat) :
  (forall s fuel', (fuel <= fuel')%nat -> parse_value fuel s <> POutOfFuel ->
                   parse_value fuel' s = parse_value fuel s)
  /\ (forall s acc fuel', (fuel <= fuel')%nat ->
                          parse_elements fuel s acc <> POutOfFuel ->
                          parse_elements fuel' s acc = parse_elements fuel s acc)
  /\ (forall s acc fuel', (fuel <= fuel')%nat ->
                          parse_members fuel s acc <> POutOfFuel ->
                          parse_members fuel' s acc = parse_members fuel s acc).
Proof.
  induction fuel as [|fuel (IHv & IHe & IHm)].
  { repeat split; intros; simpl in *; congruence. }
  repeat split.
  - intros s [|fuel'] Hle; [lia|]. rewrite !parse_value_S.
    destruct (skip_ws s) as [|c r]; [reflexivity|].
    destruct (c =? 91)%N.
    { destruct (skip_ws r) as [|d r']; [reflexivity|].
      destruct (d =? 93)%N; [reflexivity|]. apply IHe. lia. }
    destruct (c =? 123)%N.
    { destruct (skip_ws r) as [|d r']; [reflexivity|].
      destruct (d =? 125)%N; [reflexivity|]. apply IHm. lia. }
    reflexivity.
  - intros s acc [|fuel'] Hle; [lia|]. rewrite !parse_elements_S.
    intros H.
    assert (Hv : parse_value fuel s <> POutOfFuel).
    { intros E. rewrite E in H. congruence. }
    rewrite (IHv s fuel') by (lia || assumption).
    destruct (parse_value fuel s) as [v0 r| |]; try reflexivity.
    destruct (skip_ws r) as [|c r']; [reflexivity|].
    destruct (c =? 44)%N; [|reflexivity].
    apply IHe; [lia | exact H].
  - intros s acc [|fuel'] Hle; [lia|]. rewrite !parse_members_S.
    destruct (skip_ws s) as [|c r]; [reflexivity|].
    destruct (c =? 34)%N; [|reflexivity].
    destruct (parse_chars r) as [[key r1]|]; [|reflexivity].
    destruct (skip_ws r1) as [|d r2]; [reflexivity|].
    destruct (d =? 58)%N; [|reflexivity].
    intros H.
    assert (Hv : parse_value fuel r2 <> POutOfFuel).
    { intros E. rewrite E in H. congruence. }
    rewrite (IHv r2 fuel') by (lia || assumption).
    destruct (parse_value fuel r2) as [v0 r3| |]; try reflexivity.
    destruct (skip_ws r3) as [|g r4]; [reflexivity|].
    destruct (g =? 44)%N; [|reflexivity].
    apply IHm; [lia | exact H].
Qed.

(** [JSON.parse] never fails for lack of fuel: what [parse_value] finds with
    any fuel, it finds with the fuel of [parse]. *)
Lemma parse_value_fuel (s : jsstring) :
  parse_value (fuel_for s) s <> POutOfFuel.
Proof.
  apply (proj1 (parse_has_fuel (fuel_for s))). unfold fuel_for. lia.
Qed.

Lemma parse_value_any_fuel (fuel : nat) (s : jsstring) (v : value) (rest : jsstring) :
  parse_value fuel s = POk v rest ->
  parse_value (fuel_for s) s = POk v rest.
Proof.
  intros H.
  destruct (Nat.le_gt_cases fuel (fuel_for s)) as [L|L].
  - rewrite (proj1 (parse_fuel_mono fuel) s (fuel_for s) L); congruence.
  - rewrite <- H. symmetry.
    apply (proj1 (parse_fuel_mono (fuel_for s))); [lia | apply parse_value_fuel].
Qed.

End JSONFacts.

(* ================================================================== *)
(** ** JSON: what [stringify] writes, [parse] reads back *)

Module JSONRoundTrip.
Import JSONFacts.

Lemma hex_value_hex_digit (d : N) :
  (d < 16)%N -> hex_value (hex_digit d) = Some d.
Proof.
  intros H. unfold hex_value, hex_digit.
  destruct (N.ltb_spec d 10).
  - replace ((48 <=? 48 + d) && (48 + d <=? 57))%N with true.
    + f_equal. lia.
    + symmetry. apply andb_true_iff. split; apply N.leb_le; lia.
  - replace ((48 <=? 87 + d) && (87 + d <=? 57))%N with false.
    2:{ symmetry. apply andb_false_iff. right. apply N.leb_gt. lia. }
    replace ((65 <=? 87 + d) && (87 + d <=? 70))%N with false.
    2:{ symmetry. apply andb_false_iff. right. apply N.leb_gt. lia. }
    replace ((97 <=? 87 + d) && (87 + d <=? 102))%N with true.
    + f_equal. lia.
    + symmetry. apply andb_true_iff. split; apply N.leb_le; lia.
Qed.

Lemma hex4_unicode_escape (c : code_unit) :
  (c < 65536)%N ->
  hex4 (hex_digit (c / 4096 mod 16)) (hex_digit (c / 256 mod 16))
       (hex_digit (c / 16 mod 16)) (hex_digit (c mod 16)) = Some c.
Proof.
  intros H. unfold hex4.
  rewrite !hex_value_hex_digit by (apply N.mod_lt; discriminate).
  f_equal.
  pose proof (N.div_mod c 16 ltac:(discriminate)) as E0.
  pose proof (N.div_mod (c / 16) 16 ltac:(discriminate)) as E1.
  pose proof (N.div_mod (c / 256) 16 ltac:(discriminate)) as E2.
  assert (D1 : (c / 256 = c / 16 / 16)%N) by (now rewrite N.Div0.div_div).
  assert (D2 : (c / 4096 = c / 256 / 16)%N) by (now rewrite N.Div0.div_div).
  assert (S3 : (c / 4096 < 16)%N) by (apply N.Div0.div_lt_upper_bound; lia).
  rewrite (N.mod_small (c / 4096) 16) by assumption.
  rewrite D1 in *. rewrite D2 in *.
  lia.
Qed.

(** Reading one escape back. *)
Lemma parse_chars_unicode_escape (c : code_unit) (tail : jsstring) :
  (c < 65536)%N ->
  parse_chars (unicode_escape c ++ tail) = cons_fst c (parse_chars tail).
Proof.
  intros H. unfold unicode_escape.
  cbn [Datatypes.app parse_chars N.eqb Pos.eqb].
  now rewrite hex4_unicode_escape.
Qed.

Lemma parse_chars_plain (c : code_unit) (tail : jsstring) :
  c <> 34%N -> c <> 92%N -> (32 <= c)%N ->
  parse_chars (c :: tail) = cons_fst c (parse_chars tail).
Proof.
  intros H1 H2 H3. cbn [parse_chars].
  destruct (N.eqb_spec c 34); [contradiction|].
  destruct (N.eqb_spec c 92); [contradiction|].
  destruct (N.ltb_spec c 32); [lia | reflexivity].
Qed.

Lemma parse_chars_quote_unit (c : code_unit) (tail : jsstring) :
  is_high_surrogate c = false -> is_low_surrogate c = false ->
  parse_chars (quote_unit c ++ tail) = cons_fst c (parse_chars tail).
Proof.
  intros _ _. unfold quote_unit.
  destruct (N.eqb_spec c 8); [subst; reflexivity|].
  destruct (N.eqb_spec c 9); [subst; reflexivity|].
  destruct (N.eqb_spec c 10); [subst; reflexivity|].
  destruct (N.eqb_spec c 12); [subst; reflexivity|].
  destruct (N.eqb_spec c 13); [subst; reflexivity|].
  destruct (N.eqb_spec c 34); [subst; reflexivity|].
  destruct (N.eqb_spec c 92); [subst; reflexivity|].
  destruct (N.ltb_spec c 32).
  - apply parse_chars_unicode_escape. lia.
  - now apply parse_chars_plain.
Qed.

Lemma surrogate_bounds (c : code_unit) :
  is_high_surrogate c = true \/ is_low_surrogate c = true ->
  (c < 65536)%N /\ c <> 34%N /\ c <> 92%N /\ (32 <= c)%N.
Proof.
  unfold is_high_surrogate, is_low_surrogate.
  rewrite !andb_true_iff, !N.leb_le. lia.
Qed.

(** A quoted string reads back as the string. *)
Lemma parse_chars_quote_units (s tail : jsstring) :
  parse_chars (quote_units s ++ 34%N :: tail) = Some (s, tail).
Proof.
  remember (List.length s) as n eqn:Hn. revert s Hn.
  induction n as [n IH] using lt_wf_ind. intros s Hn.
  destruct s as [|c r]; [reflexivity|].
  cbn [quote_units].
  destruct (is_high_surrogate c) eqn:Hh.
  - destruct (surrogate_bounds c (or_introl Hh)) as (B1 & B2 & B3 & B4).
    destruct r as [|d r'].
    + rewrite parse_chars_unicode_escape by assumption. reflexivity.
    + destruct (is_low_surrogate d) eqn:Hl.
      * destruct (surrogate_bounds d (or_intror Hl)) as (C1 & C2 & C3 & C4).
        cbn [Datatypes.app]. rewrite !parse_chars_plain by assumption.
        rewrite (IH (List.length r')) by (simpl in *; lia || reflexivity).
        reflexivity.
      * rewrite <- app_assoc, parse_chars_unicode_escape by assumption.
        rewrite (IH (List.length (d :: r'))) by (simpl in *; lia || reflexivity).
        reflexivity.
  - destruct (is_low_surrogate c) eqn:Hl.
    + destruct (surrogate_bounds c (or_intror Hl)) as (B1 & B2 & B3 & B4).
      rewrite <- app_assoc, parse_chars_unicode_escape by assumption.
      rewrite (IH (List.length r)) by (simpl in *; lia || reflexivity).
      reflexivity.
    + rewrite <- app_assoc, parse_chars_quote_unit by assumption.
      rewrite (IH (List.length r)) by (simpl in *; lia || reflexivity).
      reflexivity.
Qed.

(** *** Numbers *)

Lemma to_uint_head (p : positive) :
  exists c r, uint_units (Pos.to_uint p) = c :: r
              /\ is_digit c = true /\ c <> 48%N.
Proof.
  assert (Hn : forall d', Pos.to_uint p <> D0 d').
  { intros d' E.
    pose proof (DecimalPos.Unsigned.to_of (Pos.to_uint p)) as H.
    rewrite DecimalPos.Unsigned.of_to in H. simpl in H.
    rewrite E in H. unfold unorm in H. rewrite DecimalFacts.nzhead_D0 in H.
    destruct (nzhead d') eqn:Ez;
      try (symmetry in H; rewrite <- Ez in H;
           exact (DecimalFacts.nzhead_nonzero _ _ H)).
    apply (DecimalPos.Unsigned.to_uint_nonzero p). rewrite E. exact H. }
  pose proof (DecimalPos.Unsigned.to_uint_nonnil p) as Hnil.
  destruct (Pos.to_uint p) as [|d|d|d|d|d|d|d|d|d|d]; simpl;
    try congruence;
    try (eexists _, _; repeat split; discriminate).
Qed.

Lemma span_digits_uint_units (d : Decimal.uint) (g : code_unit) (rest : jsstring) :
  is_digit g = false ->
  span_digits (uint_units d ++ g :: rest) = (uint_units d, g :: rest).
Proof.
  intros Hg. induction d; simpl; try rewrite IHd; try reflexivity.
  now rewrite Hg.
Qed.

Lemma digits_Z_uint_units (d : Decimal.uint) :
  digits_Z (uint_units d) = Z.of_uint d.
Proof.
  unfold digits_Z. now rewrite units_uint_uint_units.
Qed.

Lemma parse_number_unsigned (d : Decimal.uint) (c : code_unit) (r : jsstring)
      (negative : bool) (g : code_unit) (rest : jsstring) :
  uint_units d = c :: r -> is_digit c = true -> c <> 48%N -> closes g ->
  parse_number ((if negative then [45%N] else []) ++ uint_units d ++ g :: rest)
  = Some (JNum (if negative then - Z.of_uint d else Z.of_uint d) 0, g :: rest).
Proof.
  intros E Hd Hz Hg.
  assert (Hspan : span_digits (c :: r ++ g :: rest) = (c :: r, g :: rest)).
  { rewrite <- E. change (c :: r ++ g :: rest) with ((c :: r) ++ g :: rest).
    rewrite <- E. apply span_digits_uint_units.
    destruct Hg as [->|[->| ->]]; reflexivity. }
  assert (Hm : c <> 45%N).
  { intros ->. discriminate. }
  assert (Hv : digits_Z ((c :: r) ++ []) = Z.of_uint d).
  { rewrite app_nil_r, <- E. apply digits_Z_uint_units. }
  unfold parse_number. rewrite E.
  destruct negative; cbn [Datatypes.app].
  - change (45 =? 45)%N with true. cbv iota beta.
    destruct (N.eqb_spec c 48); [contradiction|].
    rewrite Hd, Hspan.
    destruct Hg as [->|[->| ->]]; cbv iota beta; cbn [N.eqb Pos.eqb orb is_nil List.length];
      rewrite Hv; reflexivity.
  - destruct (N.eqb_spec c 45); [contradiction|].
    destruct (N.eqb_spec c 48); [contradiction|].
    rewrite Hd, Hspan.
    destruct Hg as [->|[->| ->]]; cbv iota beta; cbn [N.eqb Pos.eqb orb is_nil List.length];
      rewrite Hv; reflexivity.
Qed.

Lemma parse_number_Number_toString (z : Z) (g : code_unit) (rest : jsstring) :
  closes g ->
  parse_number (Number_toString z ++ g :: rest) = Some (JNum z 0, g :: rest).
Proof.
  intros Hg. unfold Number_toString.
  destruct z as [|p|p]; simpl Z.to_int; cbv iota beta.
  - destruct Hg as [->|[->| ->]]; reflexivity.
  - destruct (to_uint_head p) as (c & r & E & Hd & Hz).
    pose proof (parse_number_unsigned (Pos.to_uint p) c r false g rest E Hd Hz Hg) as H.
    refine (eq_trans H _). f_equal. f_equal. f_equal.
    unfold Z.of_uint. now rewrite DecimalPos.Unsigned.of_to.
  - destruct (to_uint_head p) as (c & r & E & Hd & Hz).
    pose proof (parse_number_unsigned (Pos.to_uint p) c r true g rest E Hd Hz Hg) as H.
    refine (eq_trans H _). f_equal. f_equal. f_equal.
    unfold Z.of_uint. now rewrite DecimalPos.Unsigned.of_to.
Qed.

Lemma Number_toString_head (z : Z) :
  exists c r, Number_toString z = c :: r /\ (is_digit c = true \/ c = 45%N).
Proof.
  unfold Number_toString. destruct z as [|p|p]; simpl Z.to_int; cbv iota beta.
  - eexists _, _. split; [reflexivity | left; reflexivity].
  - destruct (to_uint_head p) as (c & r & E & Hd & _). rewrite E. eauto.
  - eexists _, _. split; [reflexivity | right; reflexivity].
Qed.

(** *** Values

    [eventually F, P F] says that [P] holds for all large enough fuel. *)

Notation "'eventually' F , P" := (exists F0 : nat, forall F : nat, (F0 <= F)%nat -> P)
  (at level 10, F name, P at level 200).

Lemma parse_value_numeric_head (f : nat) (c : code_unit) (r : jsstring) :
  is_digit c = true \/ c = 45%N ->
  parse_value (S f) (c :: r) =
  match parse_number (c :: r) with
  | Some (v, rest) => POk v rest
  | None => PSyntaxError
  end.
Proof.
  intros Hc.
  assert (B : (c = 45 \/ 48 <= c <= 57)%N).
  { destruct Hc as [Hc| ->]; [|lia]. unfold is_digit in Hc.
    rewrite andb_true_iff, !N.leb_le in Hc. lia. }
  rewrite parse_value_S. cbn [skip_ws]. unfold is_ws.
  destruct (N.eqb_spec c 32); [lia|]. destruct (N.eqb_spec c 9); [lia|].
  destruct (N.eqb_spec c 10); [lia|]. destruct (N.eqb_spec c 13); [lia|].
  cbn [orb].
  destruct (N.eqb_spec c 91); [lia|]. destruct (N.eqb_spec c 123); [lia|].
  destruct (N.eqb_spec c 34); [lia|]. destruct (N.eqb_spec c 116); [lia|].
  destruct (N.eqb_spec c 102); [lia|]. destruct (N.eqb_spec c 110); [lia|].
  reflexivity.
Qed.

Lemma reads_number (z : Z) (g : code_unit) (rest : jsstring) :
  closes g ->
  eventually F,
    parse_value F (Number_toString z ++ g :: rest) = POk (JNum z 0) (g :: rest).
Proof.
  intros Hg. exists 1%nat. intros [|f] HF; [lia|].
  pose proof (parse_number_Number_toString z g rest Hg) as Hn.
  destruct (Number_toString_head z) as (c & r & E & Hc).
  rewrite E in *. cbn [Datatypes.app] in *.
  rewrite parse_value_numeric_head by assumption.
  now rewrite Hn.
Qed.

Lemma reads_string (str : jsstring) (rest : jsstring) :
  eventually F, parse_value F (quote str ++ rest) = POk (JStr str) rest.
Proof.
  exists 1%nat. intros [|f] HF; [lia|].
  rewrite parse_value_S. unfold quote.
  cbn [Datatypes.app skip_ws]. change (is_ws 34%N) with false. cbv iota.
  change (34 =? 91)%N with false. change (34 =? 123)%N with false.
  change (34 =? 34)%N with true. cbv iota.
  rewrite <- app_assoc. cbn [Datatypes.app].
  now rewrite parse_chars_quote_units.
Qed.

Lemma skip_ws_closes (g : code_unit) (rest : jsstring) :
  closes g -> skip_ws (g :: rest) = g :: rest.
Proof.
  intros [->|[->| ->]]; reflexivity.
Qed.

Lemma skip_ws_quote (key tail : jsstring) :
  skip_ws (quote key ++ tail) = quote key ++ tail.
Proof. reflexivity. Qed.

(** A member that is followed by another one. *)
Lemma reads_member_cons (key text rest : jsstring) (v : value)
      (acc : list (jsstring * value)) (R : presult) :
  (eventually F, parse_value F text = POk v (44%N :: rest)) ->
  (eventually F, parse_members F rest ((key, v) :: acc) = R) ->
  eventually F, parse_members F (quote key ++ 58%N :: text) acc = R.
Proof.
  intros [Fa Ha] [Fb Hb]. exists (S (Nat.max Fa Fb)).
  intros [|f] HF; [lia|].
  rewrite parse_members_S, skip_ws_quote. unfold quote at 1.
  cbn [Datatypes.app]. change (34 =? 34)%N with true. cbv iota.
  rewrite <- app_assoc. cbn [Datatypes.app].
  rewrite parse_chars_quote_units.
  cbn [skip_ws]. change (is_ws 58%N) with false. cbv iota.
  change (58 =? 58)%N with true. cbv iota.
  rewrite Ha by lia.
  cbn [skip_ws]. change (is_ws 44%N) with false. cbv iota.
  change (44 =? 44)%N with true. cbv iota.
  apply Hb. lia.
Qed.

(** The last member of an object. *)
Lemma reads_member_last (key text rest : jsstring) (v : value)
      (acc : list (jsstring * value)) :
  (eventually F, parse_value F text = POk v (125%N :: rest)) ->
  eventually F,
    parse_members F (quote key ++ 58%N :: text) acc
    = POk (JObj (List.rev ((key, v) :: acc))) rest.
Proof.
  intros [Fa Ha]. exists (S Fa).
  intros [|f] HF; [lia|].
  rewrite parse_members_S, skip_ws_quote. unfold quote at 1.
  cbn [Datatypes.app]. change (34 =? 34)%N with true. cbv iota.
  rewrite <- app_assoc. cbn [Datatypes.app].
  rewrite parse_chars_quote_units.
  cbn [skip_ws]. change (is_ws 58%N) with false. cbv iota.
  change (58 =? 58)%N with true. cbv iota.
  rewrite Ha by lia.
  cbn [skip_ws]. change (is_ws 125%N) with false. cbv iota.
  change (125 =? 44)%N with false. change (125 =? 125)%N with true.
  reflexivity.
Qed.

Lemma reads_object (key tail : jsstring) (R : presult) :
  (eventually F, parse_members F (quote key ++ tail) [] = R) ->
  eventually F, parse_value F (123%N :: quote key ++ tail) = R.
Proof.
  intros [Fa Ha]. exists (S Fa).
  intros [|f] HF; [lia|].
  rewrite parse_value_S.
  cbn [skip_ws]. change (is_ws 123%N) with false. cbv iota.
  change (123 =? 91)%N with false. change (123 =? 123)%N with true. cbv iota.
  rewrite skip_ws_quote. unfold quote at 1. cbn [Datatypes.app].
  change (34 =? 125)%N with false. cbv iota.
  apply Ha. lia.
Qed.

(** *** Arrays of objects *)

Section Elements.

Variables (A : Type) (str : A -> jsstring) (val : A -> value).

Hypothesis str_object : forall x, exists key tail, str x = 123%N :: quote key ++ tail.

Hypothesis reads_element : forall x g rest,
  closes g ->
  eventually F, parse_value F (str x ++ g :: rest) = POk (val x) (g :: rest).

Lemma reads_elements (items : list A) :
  items <> [] ->
  forall acc rest,
  eventually F,
    parse_elements F (comma_separated (List.map str items) ++ 93%N :: rest) acc
    = POk (JArr (List.rev acc ++ List.map val items)) rest.
Proof.
  induction items as [|x items IH]; [congruence|]. intros _ acc rest.
  destruct items as [|y items].
  - destruct (reads_element x 93%N rest) as [Fa Ha]; [right; left; reflexivity|].
    exists (S Fa). intros [|f] HF; [lia|].
    rewrite parse_elements_S. cbn [List.map comma_separated].
    rewrite Ha by lia.
    cbn [skip_ws]. change (is_ws 93%N) with false. cbv iota.
    change (93 =? 44)%N with false. change (93 =? 93)%N with true.
    reflexivity.
  - destruct (IH ltac:(discriminate) (val x :: acc) rest) as [Fb Hb].
    destruct (reads_element x 44%N
                (comma_separated (List.map str (y :: items)) ++ 93%N :: rest))
      as [Fa Ha]; [left; reflexivity|].
    exists (S (Nat.max Fa Fb)). intros [|f] HF; [lia|].
    rewrite parse_elements_S.
    change (comma_separated (List.map str (x :: y :: items)))
      with (str x ++ 44%N :: comma_separated (List.map str (y :: items))).
    rewrite <- app_assoc. cbn [Datatypes.app].
    rewrite Ha by lia.
    cbn [skip_ws]. change (is_ws 44%N) with false. cbv iota.
    change (44 =? 44)%N with true. cbv iota.
    rewrite Hb by lia.
    cbn [List.rev List.map]. rewrite <- app_assoc. reflexivity.
Qed.

Lemma reads_array (items : list A) (rest : jsstring) :
  eventually F,
    parse_value F (91%N :: comma_separated (List.map str items) ++ 93%N :: rest)
    = POk (JArr (List.map val items)) rest.
Proof.
  destruct items as [|x items].
  - exists 1%nat. intros [|f] HF; [lia|]. reflexivity.
  - destruct (reads_elements (x :: items) ltac:(discriminate) [] rest) as [Fa Ha].
    exists (S Fa). intros [|f] HF; [lia|].
    rewrite parse_value_S.
    cbn [skip_ws]. change (is_ws 91%N) with false. cbv iota.
    change (91 =? 91)%N with true. cbv iota.
    assert (Hhead : exists tail,
               comma_separated (List.map str (x :: items)) ++ 93%N :: rest
               = 123%N :: tail).
    { destruct (str_object x) as (key & tail & E).
      destruct items; cbn [List.map comma_separated]; rewrite E;
        cbn [Datatypes.app]; eauto. }
    destruct Hhead as (tail & E).
    rewrite E at 1.
    cbn [skip_ws]. change (is_ws 123%N) with false. cbv iota.
    change (123 =? 93)%N with false. cbv iota.
    apply Ha. lia.
Qed.

End Elements.

(** *** Laps and sessions *)

Lemma stringify_LapTime_eq (lap : LapTime.t) (rest : jsstring) :
  stringify_LapTime lap ++ rest
  = 123%N :: quote (js "id") ++ 58%N :: Number_toString (LapTime.id lap)
      ++ 44%N :: quote (js "time") ++ 58%N :: Number_toString (LapTime.time lap)
      ++ 44%N :: quote (js "lapTime") ++ 58%N :: Number_toString (LapTime.lapTime lap)
      ++ 125%N :: rest.
Proof.
  unfold stringify_LapTime. repeat rewrite <- app_assoc. reflexivity.
Qed.

Lemma reads_LapTime (lap : LapTime.t) (g : code_unit) (rest : jsstring) :
  closes g ->
  eventually F,
    parse_value F (stringify_LapTime lap ++ g :: rest)
    = POk (of_LapTime lap) (g :: rest).
Proof.
  intros _. rewrite stringify_LapTime_eq.
  change (of_LapTime lap)
    with (JObj (List.rev [(js "lapTime", JNum (LapTime.lapTime lap) 0);
                          (js "time", JNum (LapTime.time lap) 0);
                          (js "id", JNum (LapTime.id lap) 0)])).
  apply reads_object.
  eapply reads_member_cons.
  { apply reads_number. left; reflexivity. }
  eapply reads_member_cons.
  { apply reads_number. left; reflexivity. }
  eapply reads_member_last.
  apply reads_number. right; right; reflexivity.
Qed.

Lemma stringify_Session_eq (x : Session.t) (rest : jsstring) :
  stringify_Session x ++ rest
  = 123%N :: quote (js "id") ++ 58%N :: quote (Session.id x)
      ++ 44%N :: quote (js "date") ++ 58%N :: quote (Session.date x)
      ++ 44%N :: quote (js "totalTime") ++ 58%N :: Number_toString (Session.totalTime x)
      ++ 44%N :: quote (js "lapTimes") ++ 58%N
      :: 91%N :: comma_separated (List.map stringify_LapTime (Session.lapTimes x))
      ++ 93%N :: 125%N :: rest.
Proof.
  unfold stringify_Session. repeat rewrite <- app_assoc. reflexivity.
Qed.

Lemma reads_Session (x : Session.t) (g : code_unit) (rest : jsstring) :
  closes g ->
  eventually F,
    parse_value F (stringify_Session x ++ g :: rest)
    = POk (of_Session x) (g :: rest).
Proof.
  intros _. rewrite stringify_Session_eq.
  change (of_Session x)
    with (JObj (List.rev
                  [(js "lapTimes", JArr (List.map of_LapTime (Session.lapTimes x)));
                   (js "totalTime", JNum (Session.totalTime x) 0);
                   (js "date", JStr (Session.date x));
                   (js "id", JStr (Session.id x))])).
  apply reads_object.
  eapply reads_member_cons.
  { apply reads_string. }
  eapply reads_member_cons.
  { apply reads_string. }
  eapply reads_member_cons.
  { apply reads_number. left; reflexivity. }
  eapply reads_member_last.
  apply (reads_array LapTime.t stringify_LapTime of_LapTime).
  - intros lap. eexists _, _.
    rewrite <- (app_nil_r (stringify_LapTime lap)).
    apply (stringify_LapTime_eq lap []).
  - apply reads_LapTime.
Qed.

Lemma stringify_eq (sessions : list Session.t) :
  stringify sessions
  = 91%N :: comma_separated (List.map stringify_Session sessions) ++ 93%N :: [].
Proof. reflexivity. Qed.

(** What the saving effect writes, [JSON.parse] reads back as the same
    sequence of sessions. *)
Lemma parse_stringify (sessions : list Session.t) :
  JSON.parse (stringify sessions) = Some (of_sessions sessions).
Proof.
  destruct (reads_array Session.t stringify_Session of_Session
              ltac:(intros x; eexists _, _;
                    rewrite <- (app_nil_r (stringify_Session x));
                    apply (stringify_Session_eq x []))
              reads_Session sessions [])
    as [F0 H].
  specialize (H F0 (le_n _)). rewrite <- stringify_eq in H.
  unfold JSON.parse.
  rewrite (parse_value_any_fuel _ _ _ _ H). reflexivity.
Qed.

End JSONRoundTrip.

(* ================================================================== *)
(** ** Session store *)

Lemma load_saveEffect (ss : list Session.t) :
  load (saveEffect ss) = Normal (JSON.of_sessions ss).
Proof.
  unfold load, loadEffect, saveEffect, JSON_parse.
  rewrite JSONRoundTrip.parse_stringify. reflexivity.
Qed.

(** C2, as the code has it.  The loading effect never throws.  It leaves the
    history empty when the key is absent, when the stored text is the empty
    string, and when the text is not JSON.  Any other text is JSON, and the
    value it denotes becomes [sessions] as it is, whatever its shape; what
    the saving effect wrote is read back as the sequence of sessions that was
    saved.  (That a text is not JSON is never for lack of fuel in the
    parser.) *)
Theorem load_spec (saved : storage) :
  exists v : JSON.value,
    load saved = Normal v
    /\ (saved = None -> v = JArr [])
    /\ (saved = Some [] -> v = JArr [])
    /\ (forall text, saved = Some text -> JSON.parse text = None -> v = JArr [])
    /\ (forall text p, saved = Some text -> text <> [] ->
                       JSON.parse text = Some p -> v = p)
    /\ (forall ss, saved = saveEffect ss -> v = JSON.of_sessions ss)
    /\ (forall text, saved = Some text ->
                     JSON.parse_value (JSON.fuel_for text) text <> POutOfFuel).
Proof.
  assert (Hfuel : forall text, saved = Some text ->
                    JSON.parse_value (JSON.fuel_for text) text <> POutOfFuel).
  { intros text _. apply JSONFacts.parse_value_fuel. }
  unfold load, loadEffect, JSON_parse.
  destruct saved as [[|c text]|].
  - exists (JArr []). repeat split; intros; try congruence; try (now apply Hfuel).
    unfold saveEffect in *. rewrite JSONRoundTrip.stringify_eq in *. discriminate.
  - cbn [is_nil].
    destruct (JSON.parse (c :: text)) as [p|] eqn:E; cbn [try_catch setSessions_arg].
    + exists p. split; [reflexivity|].
      repeat split; intros; try congruence; try (now apply Hfuel).
      pose proof (JSONRoundTrip.parse_stringify ss) as R.
      unfold saveEffect in *. congruence.
    + exists (JArr []). split; [reflexivity|].
      repeat split; intros; try congruence; try (now apply Hfuel).
      pose proof (JSONRoundTrip.parse_stringify ss) as R.
      unfold saveEffect in *. congruence.
  - exists (JArr []). repeat split; intros; try congruence.
    unfold saveEffect in *. congruence.
Qed.

(** A stored text that is not JSON. *)
Lemma load_spec_witness :
  load (Some (js "[1,2,")) = Normal (JArr [])
  /\ load (saveEffect [sample_session]) = Normal (JSON.of_sessions [sample_session]).
Proof.
  destruct (load_spec (Some (js "[1,2,"))) as (v & Hv & _ & _ & Hbad & _ & _ & _).
  destruct (load_spec (saveEffect [sample_session])) as (w & Hw & _ & _ & _ & _ & Hok & _).
  rewrite Hv, Hw.
  rewrite (Hbad (js "[1,2,") eq_refl eq_refl).
  rewrite (Hok [sample_session] eq_refl).
  split; reflexivity.
Defined.

(** C2, as the claim has it, fails: the text [[1,2,3]] is JSON of another
    shape than a sequence of sessions, and it is loaded as a history of three
    entries. *)
Lemma load_wrong_shape :
  Shape.fails (Some (js "[1,2,3]")) = true
  /\ load (Some (js "[1,2,3]")) = Normal (JArr [JNum 1 0; JNum 2 0; JNum 3 0])
  /\ load (Some (js "[1,2,3]")) <> Normal (JArr []).
Proof.
  repeat split. discriminate.
Qed.

(** The text [null] is loaded as [null], which is not a sequence at all. *)
Example load_null : load (Some (js "null")) = Normal JNull.
Proof. reflexivity. Qed.

Lemma dispatch_ClearAllHistory (b : Browser) :
  sessions (app (dispatch ClearAllHistory b)) = []
  /\ storage_after_handler ClearAllHistory (stored b) = None
  /\ stored (dispatch ClearAllHistory b) = Some (js "[]")
  /\ load (stored (dispatch ClearAllHistory b)) = Normal (JArr []).
Proof.
  repeat split.
Qed.

(** C3, on the sample page.  [clearAllHistory] empties the history and
    removes the key while it runs, but the saving effect of the render that
    follows writes the key again: the storage ends with the text [[]], not
    without the key.  Loading from it gives the empty history. *)
Theorem clearAllHistory_rewrites_key :
  stored sample_browser <> None
  /\ sessions (app (dispatch ClearAllHistory sample_browser)) = []
  /\ storage_after_handler ClearAllHistory (stored sample_browser) = None
  /\ stored (dispatch ClearAllHistory sample_browser) = Some (js "[]")
  /\ stored (dispatch ClearAllHistory sample_browser) <> None
  /\ load (stored (dispatch ClearAllHistory sample_browser)) = Normal (JArr []).
Proof.
  repeat split; discriminate.
Qed.

Lemma filter_id_In (sessionId : jsstring) (ss : list Session.t) (x : Session.t) :
  In x (List.filter
          (fun session => negb (JsString.eqb (Session.id session) sessionId)) ss)
  <-> In x ss /\ Session.id x <> sessionId.
Proof.
  rewrite filter_In, negb_true_iff.
  destruct (JsString.eqb (Session.id x) sessionId) eqn:E.
  - apply eqb_eq in E. split; intros [H1 H2]; [discriminate | contradiction].
  - assert (Session.id x <> sessionId).
    { intros H. apply eqb_eq in H. congruence. }
    tauto.
Qed.

Lemma filter_id_absent (sessionId : jsstring) (ss : list Session.t) :
  ~ In sessionId (List.map Session.id ss) ->
  List.filter (fun session => negb (JsString.eqb (Session.id session) sessionId)) ss
  = ss.
Proof.
  induction ss as [|x ss IH]; simpl; intros H; [reflexivity|].
  destruct (JsString.eqb (Session.id x) sessionId) eqn:E; simpl.
  - apply eqb_eq in E. tauto.
  - rewrite IH; tauto.
Qed.

(** C9.  [deleteSession] keeps, in their order, exactly the sessions whose
    [id] differs from the given one, leaves the engine alone, and the saving
    effect writes the result, which a later load reads back.  When no stored
    session has that [id], the history is unchanged. *)
Theorem deleteSession_spec (sessionId : jsstring) (b : Browser) :
  let b' := dispatch (DeleteSession sessionId) b in
  (forall x, In x (sessions (app b')) <->
             In x (sessions (app b)) /\ Session.id x <> sessionId)
  /\ sessions (app b')
     = List.filter (fun x => negb (JsString.eqb (Session.id x) sessionId))
         (sessions (app b))
  /\ ~ In sessionId (session_ids b')
  /\ stored b' = Some (JSON.stringify (sessions (app b')))
  /\ load (stored b') = Normal (JSON.of_sessions (sessions (app b')))
  /\ (time (app b'), isRunning (app b'), lapTimes (app b'), lastLapTime (app b'))
     = (time (app b), isRunning (app b), lapTimes (app b), lastLapTime (app b))
  /\ (~ In sessionId (session_ids b) ->
      sessions (app b') = sessions (app b)
      /\ List.length (sessions (app b')) = List.length (sessions (app b))).
Proof.
  cbv zeta. unfold session_ids, dispatch, handler, deleteSession. simpl.
  split; [|split; [|split; [|split; [|split; [|split]]]]].
  - intros x. apply filter_id_In.
  - reflexivity.
  - intros H. apply in_map_iff in H as (x & E & H).
    apply filter_id_In in H. tauto.
  - reflexivity.
  - apply load_saveEffect.
  - reflexivity.
  - intros H. rewrite filter_id_absent by assumption. split; reflexivity.
Qed.

(** Deleting an [id] that no stored session has. *)
Lemma deleteSession_spec_witness :
  sessions (app (dispatch (DeleteSession (js "42")) sample_browser))
  = sessions (app sample_browser)
  /\ List.length (sessions (app (dispatch (DeleteSession (js "42")) sample_browser)))
     = List.length (sessions (app sample_browser)).
Proof.
  apply (deleteSession_spec (js "42") sample_browser).
  simpl. intros [H|[]]. discriminate H.
Defined.

Example deleteSession_present :
  sessions (app (dispatch (DeleteSession (js "1700000000000")) sample_browser)) = [].
Proof. reflexivity. Qed.

(* ================================================================== *)
(** ** Session identifiers *)

(** C8, as the claim has it, fails: the identifier is the clock reading, and
    two resets at the same reading store two sessions with the same [id]. *)
Lemma session_ids_clash :
  session_ids (run [StartStop; Tick; Reset 1700000000000 (js "a");
                    StartStop; Tick; Reset 1700000000000 (js "b")]
                   (opened None))
  = [js "1700000000000"; js "1700000000000"]
  /\ ~ NoDup (session_ids
                (run [StartStop; Tick; Reset 1700000000000 (js "a");
                      StartStop; Tick; Reset 1700000000000 (js "b")]
                     (opened None))).
Proof.
  split; [reflexivity|].
  intros H. inversion H as [|x l Hx _]; subst. apply Hx. now left.
Qed.

Lemma session_ids_dispatch (e : Event) (b : Browser) :
  match e with
  | Reset now _ =>
      session_ids (dispatch e b) = Number_toString now :: session_ids b
      \/ session_ids (dispatch e b) = session_ids b
  | _ =>
      NoDup (session_ids b) ->
      NoDup (session_ids (dispatch e b))
      /\ incl (session_ids (dispatch e b)) (session_ids b)
  end.
Proof.
  destruct b as [[t r laps last ss] st].
  destruct e; unfold session_ids; unfold_dispatch; simpl.
  - intros H; split; [assumption | apply incl_refl].
  - destruct r; intros H; split; try assumption; apply incl_refl.
  - destruct r; intros H; split; try assumption; apply incl_refl.
  - destruct (0 <? t); simpl; auto.
  - intros H. split.
    + induction ss as [|x ss IH]; simpl; [constructor|].
      inversion H as [|? ? Hx Hss]; subst.
      destruct (JsString.eqb (Session.id x) sessionId); simpl; [now apply IH|].
      constructor; [|now apply IH].
      intros Hin. apply Hx. apply in_map_iff in Hin as (y & E & Hy).
      apply filter_In in Hy as [Hy _]. apply in_map_iff. eauto.
    + intros i Hin. apply in_map_iff in Hin as (y & E & Hy).
      apply filter_In in Hy as [Hy _]. apply in_map_iff. eauto.
  - intros _. split; [constructor | intros i []].
Qed.

(** C8, as the code has it.  If the clock readings of the resets of a trace
    are pairwise distinct, and none of them is the [id] of a session already
    stored, then a history of pairwise distinct [id]s stays one. *)
Theorem session_ids_distinct (es : list Event) (b : Browser) :
  NoDup (reset_clocks es) ->
  NoDup (session_ids b) ->
  (forall now, In now (reset_clocks es) -> ~ In (Number_toString now) (session_ids b)) ->
  NoDup (session_ids (run es b)).
Proof.
  unfold run. revert b.
  induction es as [|e es IH]; intros b Hc Hb Hfresh; simpl; [assumption|].
  pose proof (session_ids_dispatch e b) as Hd.
  destruct e as [| | |now iso|sessionId|];
    try (destruct (Hd Hb) as [Hn Hi]; apply IH;
         [exact Hc | exact Hn | intros now Hin Hx; apply (Hfresh now Hin), Hi, Hx]).
  simpl in Hc. inversion Hc as [|? ? Hnow Hc']; subst.
  apply IH; [exact Hc'| |].
  - destruct Hd as [-> | ->]; [|assumption].
    constructor; [|assumption]. apply Hfresh. now left.
  - intros now' Hin Hx.
    destruct Hd as [E | E]; rewrite E in Hx.
    + destruct Hx as [Hx|Hx].
      * apply Number_toString_inj in Hx. subst. contradiction.
      * apply (Hfresh now'); [now right | exact Hx].
    + apply (Hfresh now'); [now right | exact Hx].
Qed.

(** Two runs saved at different clock readings, on a page opened empty. *)
Lemma session_ids_distinct_witness :
  NoDup (session_ids
           (run [StartStop; Tick; Reset 1700000000000 (js "a");
                 StartStop; Tick; Reset 1700000000010 (js "b")]
                (opened None))).
Proof.
  apply (session_ids_distinct
           [StartStop; Tick; Reset 1700000000000 (js "a");
            StartStop; Tick; Reset 1700000000010 (js "b")]
           (opened None)).
  - simpl. constructor.
    + simpl. intros [H|[]]. discriminate H.
    + constructor; [intros [] | constructor].
  - simpl. constructor.
  - simpl. intros now _ [].
Defined.

(* ================================================================== *)
(** ** The clock *)

Lemma time_counted_ticks (es : list Event) (b : Browser) (n : Z) :
  time (app b) = 10 * n ->
  time (app (run es b)) = 10 * counted_ticks es (isRunning (app b)) n.
Proof.
  unfold run. revert b n.
  induction es as [|e es IH]; intros b n H; [exact H|].
  cbn [fold_left counted_ticks].
  destruct b as [[t r laps last ss] st]. cbn [app time isRunning] in *.
  destruct e; unfold_dispatch; cbn [apply_updates fold_left apply_update app time
                                    isRunning lapTimes lastLapTime sessions].
  - apply IH. exact H.
  - destruct r; cbn [apply_updates fold_left apply_update app time
                     isRunning lapTimes lastLapTime sessions];
      apply IH; cbn [app time]; lia.
  - destruct r; cbn [apply_updates fold_left apply_update app time
                     isRunning lapTimes lastLapTime sessions];
      apply IH; exact H.
  - destruct (0 <? t); cbn [Datatypes.app apply_updates fold_left apply_update app time
                            isRunning lapTimes lastLapTime sessions];
      apply IH; reflexivity.
  - apply IH. exact H.
  - apply IH. exact H.
Qed.

(** X1.  On a page opened with the clock at zero, [time] is at every moment
    ten times the number of ticks that came while the clock was running
    since the last reset: it moves only while running, by ten per tick, and
    is a multiple of ten. *)
Theorem time_is_ten_per_running_tick (es : list Event) (st : storage) :
  time (app (run es (opened st))) = 10 * counted_ticks es false 0
  /\ time (app (run es (opened st))) mod 10 = 0.
Proof.
  pose proof (time_counted_ticks es (opened st) 0 eq_refl) as H.
  split; [exact H|].
  rewrite H, Z.mul_comm. apply Z.mod_mul. discriminate.
Qed.

(* ================================================================== *)
(** ** What an event leaves alone *)

Lemma engine_event_frame (e : Event) (b : Browser) :
  is_engine_event e = true ->
  sessions (app (dispatch e b)) = sessions (app b)
  /\ stored (dispatch e b) = stored b.
Proof.
  destruct b as [[t r laps last ss] st].
  destruct e; try discriminate; intros _; unfold_dispatch; simpl;
    destruct r; split; reflexivity.
Qed.

Lemma store_event_frame (e : Event) (b : Browser) :
  is_store_event e = true ->
  time (app (dispatch e b)) = time (app b)
  /\ isRunning (app (dispatch e b)) = isRunning (app b)
  /\ lapTimes (app (dispatch e b)) = lapTimes (app b)
  /\ lastLapTime (app (dispatch e b)) = lastLapTime (app b).
Proof.
  destruct e; try discriminate; intros _; repeat split.
Qed.

(** X2.  Starting, stopping, ticking and recording laps never touch the
    history nor the storage, however many of them come. *)
Theorem engine_events_leave_store (es : list Event) (b : Browser) :
  forallb is_engine_event es = true ->
  sessions (app (run es b)) = sessions (app b)
  /\ stored (run es b) = stored b.
Proof.
  unfold run. revert b.
  induction es as [|e es IH]; intros b H; simpl in *; [split; reflexivity|].
  apply andb_true_iff in H as [He Hes].
  destruct (IH (dispatch e b) Hes) as [H1 H2].
  destruct (engine_event_frame e b He) as [H3 H4].
  split; congruence.
Qed.

Lemma engine_events_leave_store_witness :
  sessions (app (run [StartStop; Tick; Lap; Tick; StartStop; Lap] sample_browser))
  = sessions (app sample_browser)
  /\ stored (run [StartStop; Tick; Lap; Tick; StartStop; Lap] sample_browser)
     = stored sample_browser.
Proof.
  apply (engine_events_leave_store [StartStop; Tick; Lap; Tick; StartStop; Lap]
                                   sample_browser).
  reflexivity.
Defined.

(** X3.  Deleting sessions and clearing the history never touch the clock,
    the running flag nor the laps of the run in progress. *)
Theorem store_events_leave_engine (es : list Event) (b : Browser) :
  forallb is_store_event es = true ->
  time (app (run es b)) = time (app b)
  /\ isRunning (app (run es b)) = isRunning (app b)
  /\ lapTimes (app (run es b)) = lapTimes (app b)
  /\ lastLapTime (app (run es b)) = lastLapTime (app b).
Proof.
  unfold run. revert b.
  induction es as [|e es IH]; intros b H; simpl in *; [repeat split|].
  apply andb_true_iff in H as [He Hes].
  destruct (IH (dispatch e b) Hes) as (H1 & H2 & H3 & H4).
  destruct (store_event_frame e b He) as (H5 & H6 & H7 & H8).
  repeat split; congruence.
Qed.

Lemma store_events_leave_engine_witness :
  time (app (run [DeleteSession (js "1700000000000"); ClearAllHistory] sample_browser))
  = time (app sample_browser)
  /\ isRunning (app (run [DeleteSession (js "1700000000000"); ClearAllHistory] sample_browser))
     = isRunning (app sample_browser)
  /\ lapTimes (app (run [DeleteSession (js "1700000000000"); ClearAllHistory] sample_browser))
     = lapTimes (app sample_browser)
  /\ lastLapTime (app (run [DeleteSession (js "1700000000000"); ClearAllHistory] sample_browser))
     = lastLapTime (app sample_browser).
Proof.
  apply (store_events_leave_engine
           [DeleteSession (js "1700000000000"); ClearAllHistory] sample_browser).
  reflexivity.
Defined.

(* ================================================================== *)
(** ** The storage follows the history *)

Lemma in_sync_dispatch (e : Event) (b : Browser) :
  in_sync b -> in_sync (dispatch e b).
Proof.
  unfold in_sync. destruct b as [[t r laps last ss] st]; simpl. intros ->.
  destruct e; unfold_dispatch; simpl; try reflexivity.
  - destruct r; reflexivity.
  - destruct r; reflexivity.
  - destruct (0 <? t); reflexivity.
Qed.

Lemma in_sync_run (es : list Event) (b : Browser) :
  in_sync b -> in_sync (run es b).
Proof.
  unfold run. revert b.
  induction es as [|e es IH]; intros b H; simpl; [assumption|].
  apply IH, in_sync_dispatch, H.
Qed.

(** X4.  Once the stored text is the serialisation of the history, it stays
    so after every sequence of events, and what the loading effect would read
    from the storage at that moment is the history in memory. *)
Theorem storage_follows_history (es : list Event) (b : Browser) :
  in_sync b ->
  stored (run es b) = Some (JSON.stringify (sessions (app (run es b))))
  /\ load (stored (run es b)) = Normal (JSON.of_sessions (sessions (app (run es b)))).
Proof.
  intros H. apply (in_sync_run es) in H. unfold in_sync in H.
  rewrite H. split; [reflexivity | apply load_saveEffect].
Qed.

Lemma storage_follows_history_witness :
  stored (run [StartStop; Tick; Reset 1700000005000 (js "later");
               DeleteSession (js "1700000000000")] sample_browser)
  = Some (JSON.stringify
            (sessions (app (run [StartStop; Tick; Reset 1700000005000 (js "later");
                                 DeleteSession (js "1700000000000")] sample_browser))))
  /\ load (stored (run [StartStop; Tick; Reset 1700000005000 (js "later");
                        DeleteSession (js "1700000000000")] sample_browser))
     = Normal (JSON.of_sessions
                 (sessions (app (run [StartStop; Tick; Reset 1700000005000 (js "later");
                                      DeleteSession (js "1700000000000")] sample_browser)))).
Proof.
  apply (storage_follows_history
           [StartStop; Tick; Reset 1700000005000 (js "later");
            DeleteSession (js "1700000000000")] sample_browser).
  reflexivity.
Defined.

(* ================================================================== *)
(** ** Deleting *)

Lemma filter_id_length (sessionId : jsstring) (ss : list Session.t) :
  (List.length
     (List.filter (fun x => negb (JsString.eqb (Session.id x) sessionId)) ss)
   + count_occ (list_eq_dec N.eq_dec) (List.map Session.id ss) sessionId
   = List.length ss)%nat.
Proof.
  induction ss as [|x ss IH]; simpl; [reflexivity|].
  unfold JsString.eqb at 1.
  destruct (list_eq_dec N.eq_dec (Session.id x) sessionId); simpl; lia.
Qed.

(** X5.  [deleteSession] removes as many sessions as carry the given
    [id]: none when it is unknown, all of them when several share it; when
    the [id]s of the history are pairwise distinct and the [id] is among
    them, exactly one session goes and the [id]s stay distinct. *)
Theorem deleteSession_removes_all_matches (sessionId : jsstring) (b : Browser) :
  let b' := dispatch (DeleteSession sessionId) b in
  (List.length (sessions (app b'))
   + count_occ (list_eq_dec N.eq_dec) (session_ids b) sessionId
   = List.length (sessions (app b)))%nat
  /\ (NoDup (session_ids b) -> In sessionId (session_ids b) ->
      S (List.length (sessions (app b'))) = List.length (sessions (app b))
      /\ NoDup (session_ids b')).
Proof.
  cbv zeta.
  assert (E : sessions (app (dispatch (DeleteSession sessionId) b))
              = List.filter (fun x => negb (JsString.eqb (Session.id x) sessionId))
                  (sessions (app b))) by reflexivity.
  pose proof (filter_id_length sessionId (sessions (app b))) as L.
  split.
  - rewrite E. exact L.
  - intros Hnd Hin. split.
    + pose proof (proj1 (NoDup_count_occ' (list_eq_dec N.eq_dec) (session_ids b))
                    Hnd sessionId Hin) as C.
      unfold session_ids in C. rewrite E. lia.
    + pose proof (session_ids_dispatch (DeleteSession sessionId) b) as D.
      simpl in D. apply D, Hnd.
Qed.

Lemma deleteSession_removes_all_matches_witness :
  S (List.length (sessions (app (dispatch (DeleteSession (js "1700000000000"))
                                          sample_browser))))
  = List.length (sessions (app sample_browser))
  /\ NoDup (session_ids (dispatch (DeleteSession (js "1700000000000")) sample_browser)).
Proof.
  apply (deleteSession_removes_all_matches (js "1700000000000") sample_browser).
  - repeat constructor. intros [].
  - left. reflexivity.
Defined.

Lemma filter_id_comm (i j : jsstring) (ss : list Session.t) :
  List.filter (fun x => negb (JsString.eqb (Session.id x) i))
    (List.filter (fun x => negb (JsString.eqb (Session.id x) j)) ss)
  = List.filter (fun x => negb (JsString.eqb (Session.id x) j))
      (List.filter (fun x => negb (JsString.eqb (Session.id x) i)) ss).
Proof.
  induction ss as [|x ss IH]; simpl; [reflexivity|].
  destruct (JsString.eqb (Session.id x) i) eqn:Ei,
           (JsString.eqb (Session.id x) j) eqn:Ej; simpl;
    rewrite ?Ei, ?Ej; simpl; congruence.
Qed.

Lemma filter_id_idem (i : jsstring) (ss : list Session.t) :
  List.filter (fun x => negb (JsString.eqb (Session.id x) i))
    (List.filter (fun x => negb (JsString.eqb (Session.id x) i)) ss)
  = List.filter (fun x => negb (JsString.eqb (Session.id x) i)) ss.
Proof.
  induction ss as [|x ss IH]; simpl; [reflexivity|].
  destruct (JsString.eqb (Session.id x) i) eqn:Ei; simpl;
    rewrite ?Ei; simpl; congruence.
Qed.

(** X6.  Deletions compose: deleting the same [id] twice is deleting it
    once, two deletions give the same page in either order, and clearing the
    history after a deletion is clearing it. *)
Theorem deletions_compose (i j : jsstring) (b : Browser) :
  dispatch (DeleteSession i) (dispatch (DeleteSession i) b)
  = dispatch (DeleteSession i) b
  /\ dispatch (DeleteSession i) (dispatch (DeleteSession j) b)
     = dispatch (DeleteSession j) (dispatch (DeleteSession i) b)
  /\ dispatch ClearAllHistory (dispatch (DeleteSession i) b)
     = dispatch ClearAllHistory b.
Proof.
  destruct b as [[t r laps last ss] st].
  unfold dispatch, handler, deleteSession, clearAllHistory,
    storage_after_effects, storage_after_handler, saveEffect.
  cbn [apply_updates fold_left apply_update app stored time isRunning lapTimes
       lastLapTime sessions existsb is_SetSessions orb].
  repeat split.
  - now rewrite filter_id_idem.
  - now rewrite filter_id_comm.
Qed.

(* ================================================================== *)
(** ** Colours and the counter *)

Lemma getFastest_le_getSlowest (laps : list LapTime.t) (f s : Z) :
  getFastest laps = Some f -> getSlowest laps = Some s -> f <= s.
Proof.
  intros Hf Hs.
  apply getFastest_Some in Hf as [Hin Hmin].
  apply getSlowest_Some in Hs as [_ Hmax].
  apply in_map_iff in Hin as (l & <- & Hl).
  rewrite Forall_forall in Hmax. now apply Hmax.
Qed.

Lemma two_splits_two_laps (laps : list LapTime.t) (f s : Z) :
  getFastest laps = Some f -> getSlowest laps = Some s -> f <> s ->
  (1 < List.length laps)%nat.
Proof.
  intros Hf Hs Hne.
  apply getFastest_Some in Hf as [Hf _].
  apply getSlowest_Some in Hs as [Hs _].
  destruct laps as [|a [|c laps]]; simpl in *; [tauto| |lia].
  destruct Hf as [<-|[]], Hs as [<-|[]]. congruence.
Qed.

(** X7.  In the lap table a row is red exactly when it shows the slowest
    badge and not the fastest one, and green exactly when it shows the
    fastest badge; so when all splits are equal every row of the table is
    green and none is red. *)
Theorem rowStyle_matches_badges (laps : list LapTime.t) (lap : LapTime.t) :
  (rowStyleIn laps lap = Red <->
   badgeSlowest laps lap = true /\ badgeFastest laps lap = false)
  /\ (rowStyleIn laps lap = Green <-> badgeFastest laps lap = true)
  /\ (In lap laps -> getFastest laps = getSlowest laps ->
      rowStyleIn laps lap = Green).
Proof.
  unfold rowStyleIn, rowStyle, badgeSlowest, badgeFastest.
  split; [|split].
  - destruct (strict_eq (LapTime.lapTime lap) (getFastest laps)) eqn:Ef.
    + split; [discriminate | intros [_ H]; discriminate].
    + destruct (strict_eq (LapTime.lapTime lap) (getSlowest laps)) eqn:Es.
      * split; [|reflexivity]. intros _. split; [|reflexivity].
        simpl. apply Nat.ltb_lt.
        apply strict_eq_true in Es.
        destruct (getFastest laps) as [f|] eqn:Hf.
        -- apply (two_splits_two_laps laps f (LapTime.lapTime lap) Hf Es).
           intros ->. simpl in Ef. rewrite Z.eqb_refl in Ef. discriminate.
        -- unfold getFastest in Hf. unfold getSlowest in Es.
           destruct (List.map LapTime.lapTime laps); discriminate.
      * split; [discriminate | intros [H _]; discriminate].
  - destruct (strict_eq (LapTime.lapTime lap) (getFastest laps));
      [tauto | destruct (strict_eq (LapTime.lapTime lap) (getSlowest laps))];
      split; discriminate.
  - intros Hin Heq.
    destruct (getFastest laps) as [f|] eqn:Hf.
    + symmetry in Heq.
      pose proof (proj1 (getFastest_Some laps f) Hf) as [_ Hmin].
      pose proof (proj1 (getSlowest_Some laps f) Heq) as [_ Hmax].
      rewrite Forall_forall in Hmin, Hmax.
      specialize (Hmin lap Hin). specialize (Hmax lap Hin).
      simpl. replace (LapTime.lapTime lap =? f) with true; [reflexivity|].
      symmetry. apply Z.eqb_eq. lia.
    + unfold getFastest in Hf. destruct laps; [contradiction | discriminate].
Qed.

Lemma rowStyle_matches_badges_witness :
  rowStyleIn [LapTime.mk 2 100 50; LapTime.mk 1 50 50] (LapTime.mk 1 50 50) = Green.
Proof.
  apply (rowStyle_matches_badges [LapTime.mk 2 100 50; LapTime.mk 1 50 50]
                                 (LapTime.mk 1 50 50)).
  - right. left. reflexivity.
  - reflexivity.
Defined.

(** X8.  The counter on the history button is absent exactly when there is
    no session; otherwise it is one or two characters: the number of
    sessions as one digit up to nine, and [9+] beyond. *)
Theorem historyBadge_spec (ss : list Session.t) :
  (historyBadge ss = None <-> ss = [])
  /\ (forall t, historyBadge ss = Some t ->
        (1 <= List.length t <= 2)%nat
        /\ ((List.length ss <= 9)%nat ->
            List.length t = 1%nat
            /\ digits_value t = Some (Z.of_nat (List.length ss)))
        /\ ((9 < List.length ss)%nat -> t = js "9+")).
Proof.
  unfold historyBadge. split.
  - destruct ss; simpl; split; congruence.
  - intros t.
    destruct (Nat.ltb_spec 0 (List.length ss)) as [Hpos|Hz]; [|discriminate].
    destruct (Nat.ltb_spec 9 (List.length ss)) as [Hbig|Hsmall];
      intros E; injection E as <-.
    + repeat split; simpl; lia.
    + assert (Hd : digits_value (Number_toString (Z.of_nat (List.length ss)))
                   = Some (Z.of_nat (List.length ss)))
        by (apply digits_value_Number_toString; lia).
      assert (H1 : forallb
                     (fun k => (List.length (Number_toString (Z.of_nat k)) =? 1)%nat)
                     (seq 1 9) = true) by (vm_compute; reflexivity).
      rewrite forallb_forall in H1.
      specialize (H1 (List.length ss)).
      rewrite in_seq, Nat.eqb_eq in H1.
      assert (L : List.length (Number_toString (Z.of_nat (List.length ss))) = 1%nat)
        by (apply H1; lia).
      repeat split; try lia; assumption.
Qed.

Lemma historyBadge_spec_witness :
  (1 <= List.length (js "1") <= 2)%nat
  /\ ((List.length [sample_session] <= 9)%nat ->
      List.length (js "1") = 1%nat
      /\ digits_value (js "1") = Some (Z.of_nat (List.length [sample_session])))
  /\ ((9 < List.length [sample_session])%nat -> js "1" = js "9+").
Proof.
  apply (historyBadge_spec [sample_session]). reflexivity.
Defined.

(* ================================================================== *)
(** ** Buttons *)

(** X9.  On every state reached from a freshly opened page: when the reset
    button is enabled, a click on it saves a session, the history grows by
    one and its new head carries the time on the clock; when the lap button
    is enabled, a click on it records a lap; and the label under a stopped
    clock reads [Paused] exactly when the reset button is enabled and
    [Ready] exactly when it is disabled. *)
Theorem enabled_buttons_act (es : list Event) (st : storage) (now : Z) (iso : jsstring) :
  let b := run es (opened st) in
  (resetDisabled (app b) = false ->
     exists x, sessions (app (dispatch (Reset now iso) b)) = x :: sessions (app b)
               /\ Session.totalTime x = time (app b)
               /\ 0 < Session.totalTime x)
  /\ (lapDisabled (app b) = false ->
      List.length (lapTimes (app (dispatch Lap b)))
      = S (List.length (lapTimes (app b))))
  /\ (isRunning (app b) = false ->
      (statusLabel (app b) = js "Paused" <-> resetDisabled (app b) = false)
      /\ (statusLabel (app b) = js "Ready" <-> resetDisabled (app b) = true)).
Proof.
  intros b.
  pose proof (engine_inv_run es (opened st) engine_inv_initial) as H.
  fold b in H. destruct H as [Hb _ _ _ _ _ _].
  unfold resetDisabled, lapDisabled, statusLabel.
  destruct b as [[t r laps last ss] s0]. cbn [app time isRunning lapTimes sessions] in *.
  split; [|split].
  - intros Hz. apply Z.eqb_neq in Hz.
    unfold_dispatch. cbn [app time lapTimes].
    destruct (Z.ltb_spec 0 t); [|lia].
    eexists. split; [reflexivity|]. split; [reflexivity | assumption].
  - intros Hr. apply negb_false_iff in Hr. subst r. reflexivity.
  - intros ->.
    destruct (Z.ltb_spec 0 t); destruct (Z.eqb_spec t 0); try lia;
      split; split; intros; try reflexivity; try discriminate.
Qed.

Lemma enabled_buttons_act_witness :
  exists x,
    sessions (app (dispatch (Reset 7 (js "d")) (run [StartStop; Tick; StartStop] (opened None))))
    = x :: sessions (app (run [StartStop; Tick; StartStop] (opened None)))
    /\ Session.totalTime x = time (app (run [StartStop; Tick; StartStop] (opened None)))
    /\ 0 < Session.totalTime x.
Proof.
  apply (enabled_buttons_act [StartStop; Tick; StartStop] None 7 (js "d")).
  reflexivity.
Defined.

(* ================================================================== *)
(** ** What the history holds *)

Lemma lap_times_dispatch (e : Event) (b : Browser) :
  engine_inv (app b) ->
  Forall (fun lap => 0 <= LapTime.time lap <= lastLapTime (app b)) (lapTimes (app b)) ->
  Forall (fun lap => 0 <= LapTime.time lap <= lastLapTime (app (dispatch e b)))
         (lapTimes (app (dispatch e b))).
Proof.
  intros [Hb _ _ _ _ _ _] HF.
  destruct b as [[t r laps last ss] st]. cbn [app time lapTimes lastLapTime] in *.
  destruct e; unfold_dispatch; simpl; try assumption.
  - destruct r; assumption.
  - destruct r; simpl; [|assumption].
    constructor; [simpl; lia|].
    eapply Forall_impl; [|exact HF]. simpl. intros; lia.
  - destruct (0 <? t); simpl; constructor.
Qed.

Lemma sessions_ok_dispatch (e : Event) (b : Browser) :
  engine_inv (app b) ->
  Forall (fun lap => 0 <= LapTime.time lap <= lastLapTime (app b)) (lapTimes (app b)) ->
  Forall session_ok (sessions (app b)) ->
  Forall session_ok (sessions (app (dispatch e b))).
Proof.
  intros [Hb _ Hs Hc Hp Hi _] HF Hok.
  destruct b as [[t r laps last ss] st].
  cbn [app time lapTimes lastLapTime sessions] in *.
  destruct e; unfold_dispatch; simpl; try assumption.
  - destruct r; assumption.
  - destruct r; assumption.
  - destruct (Z.ltb_spec 0 t); simpl; [|assumption].
    constructor; [|assumption].
    constructor; simpl; try assumption; try lia.
    rewrite Forall_forall in *. intros lap Hin.
    specialize (Hp lap Hin). specialize (HF lap Hin). simpl in *. lia.
  - apply Forall_forall. intros x Hx. apply filter_In in Hx as [Hx _].
    rewrite Forall_forall in Hok. now apply Hok.
  - constructor.
Qed.

Lemma sessions_ok_run (es : list Event) (b : Browser) :
  engine_inv (app b) ->
  Forall (fun lap => 0 <= LapTime.time lap <= lastLapTime (app b)) (lapTimes (app b)) ->
  Forall session_ok (sessions (app b)) ->
  Forall session_ok (sessions (app (run es b))).
Proof.
  unfold run. revert b.
  induction es as [|e es IH]; intros b H1 H2 H3; simpl; [assumption|].
  apply IH.
  - now apply engine_inv_dispatch.
  - now apply lap_times_dispatch.
  - now apply sessions_ok_dispatch.
Qed.

(** X10.  Every session that the page saves after it was opened with an
    empty history has time on its clock, laps numbered from their count down
    to one whose splits chain from zero, are not negative and add up to at
    most the total time, and no lap mark beyond the total time. *)
Theorem saved_sessions_are_sound (es : list Event) (st : storage) :
  Forall session_ok (sessions (app (run es (opened st)))).
Proof.
  apply sessions_ok_run.
  - apply engine_inv_initial.
  - constructor.
  - constructor.
Qed.

(* ================================================================== *)
(** ** The history grows at the head *)

Lemma history_grows_dispatch (e : Event) (b : Browser) :
  is_store_event e = false ->
  exists newer,
    sessions (app (dispatch e b)) = newer ++ sessions (app b)
    /\ (List.length newer <= List.length (reset_clocks [e]))%nat
    /\ incl (List.map Session.id newer)
            (List.map Number_toString (reset_clocks [e])).
Proof.
  destruct b as [[t r laps last ss] st].
  destruct e; try discriminate; intros _; unfold_dispatch; simpl.
  - exists []. repeat split; auto using incl_refl.
  - exists []. destruct r; repeat split; auto using incl_refl.
  - exists []. destruct r; repeat split; auto using incl_refl.
  - destruct (0 <? t); simpl.
    + eexists [_]. repeat split; simpl; auto using incl_refl.
    + exists []. repeat split; simpl; auto. intros x [].
Qed.

Lemma reset_clocks_cons (e : Event) (es : list Event) :
  reset_clocks (e :: es) = reset_clocks [e] ++ reset_clocks es.
Proof.
  destruct e; reflexivity.
Qed.

(** X11.  As long as nothing is deleted or cleared, the history only grows
    at its head: the sessions that were there stay, in their order, behind
    the new ones; there are at most as many new ones as resets, and each
    carries the clock reading of one of them as its [id]. *)
Theorem history_grows_at_head (es : list Event) (b : Browser) :
  forallb (fun e => negb (is_store_event e)) es = true ->
  exists newer,
    sessions (app (run es b)) = newer ++ sessions (app b)
    /\ (List.length newer <= List.length (reset_clocks es))%nat
    /\ incl (List.map Session.id newer)
            (List.map Number_toString (reset_clocks es)).
Proof.
  unfold run. revert b.
  induction es as [|e es IH]; intros b H; cbn [fold_left forallb] in H |- *.
  - exists []. repeat split; simpl; auto. intros x [].
  - apply andb_true_iff in H as [He Hes]. apply negb_true_iff in He.
    destruct (IH (dispatch e b) Hes) as (n2 & E2 & L2 & I2).
    destruct (history_grows_dispatch e b He) as (n1 & E1 & L1 & I1).
    exists (n2 ++ n1). rewrite reset_clocks_cons.
    split; [|split].
    + rewrite E2, E1. apply app_assoc.
    + rewrite !length_app. lia.
    + rewrite !map_app. intros x Hx.
      apply in_app_iff in Hx. apply in_app_iff. destruct Hx; [right|left]; auto.
Qed.

Lemma history_grows_at_head_witness :
  exists newer,
    sessions (app (run [StartStop; Tick; Reset 1700000005000 (js "later")] sample_browser))
    = newer ++ sessions (app sample_browser)
    /\ (List.length newer
        <= List.length (reset_clocks [StartStop; Tick; Reset 1700000005000 (js "later")]))%nat
    /\ incl (List.map Session.id newer)
            (List.map Number_toString
               (reset_clocks [StartStop; Tick; Reset 1700000005000 (js "later")])).
Proof.
  apply (history_grows_at_head [StartStop; Tick; Reset 1700000005000 (js "later")]
                               sample_browser).
  reflexivity.
Defined.

(* ================================================================== *)
(** ** What the display tells *)

Lemma uint_units_digits (d : Decimal.uint) :
  Forall (fun c => is_digit c = true) (uint_units d).
Proof.
  induction d; simpl; constructor; try assumption; reflexivity.
Qed.

Lemma padStart_digits (n : Z) :
  0 <= n ->
  Forall (fun c => is_digit c = true) (padStart 2 48%N (Number_toString n)).
Proof.
  intros Hn. destruct (Number_toString_nonneg n Hn) as (d & -> & _ & _).
  unfold padStart.
  destruct (List.length (uint_units d) <? 2)%nat; [|apply uint_units_digits].
  apply Forall_app. split; [|apply uint_units_digits].
  apply Forall_forall. intros c Hc. apply repeat_spec in Hc. now subst.
Qed.

(** Two runs of digits followed by the same separator. *)
Lemma digits_split (sep : code_unit) (a a' r r' : jsstring) :
  is_digit sep = false ->
  Forall (fun c => is_digit c = true) a ->
  Forall (fun c => is_digit c = true) a' ->
  a ++ sep :: r = a' ++ sep :: r' ->
  a = a' /\ r = r'.
Proof.
  intros Hsep Ha. revert a'.
  induction Ha as [|c a Hc Ha IH]; intros a' Ha' E.
  - destruct Ha' as [|c' a' Hc' Ha']; simpl in E.
    + inversion E. auto.
    + inversion E; subst. congruence.
  - destruct Ha' as [|c' a' Hc' Ha']; simpl in E.
    + inversion E; subst. congruence.
    + inversion E; subst. destruct (IH a' Ha' H1) as [-> ->]. auto.
Qed.

Lemma formatTime_fields_nonneg (x : Z) :
  0 <= x ->
  0 <= x / 1000 / 60 /\ 0 <= Z.rem (x / 1000) 60 /\ 0 <= Z.rem x 1000 / 10.
Proof.
  intros Hx.
  assert (0 <= x / 1000) by (apply Z.div_pos; lia).
  rewrite !Z.rem_mod_nonneg by lia.
  repeat split.
  - apply Z.div_pos; lia.
  - apply Z.mod_pos_bound; lia.
  - apply Z.div_pos; [apply Z.mod_pos_bound|]; lia.
Qed.

Lemma hundredths_fields (x : Z) :
  0 <= x ->
  x / 10 = 100 * (60 * (x / 1000 / 60) + Z.rem (x / 1000) 60) + Z.rem x 1000 / 10.
Proof.
  intros Hx.
  assert (0 <= x / 1000) by (apply Z.div_pos; lia).
  rewrite !Z.rem_mod_nonneg by lia.
  rewrite <- (Z.div_mod (x / 1000) 60) by lia.
  pose proof (Z.div_mod x 1000 ltac:(lia)) as E.
  pose proof (Z.mod_pos_bound x 1000 ltac:(lia)) as B.
  pose proof (Z.div_mod (x mod 1000) 10 ltac:(lia)) as E1.
  pose proof (Z.mod_pos_bound (x mod 1000) 10 ltac:(lia)) as B1.
  symmetry. apply Z.div_unique with (r := (x mod 1000) mod 10); lia.
Qed.

Lemma fields_of_hundredths (x : Z) :
  0 <= x ->
  x / 1000 / 60 = x / 10 / 6000
  /\ Z.rem (x / 1000) 60 = (x / 10 / 100) mod 60
  /\ Z.rem x 1000 / 10 = (x / 10) mod 100.
Proof.
  intros Hx.
  assert (0 <= x / 1000) by (apply Z.div_pos; lia).
  rewrite !Z.rem_mod_nonneg by lia.
  assert (E : x / 1000 = x / 10 / 100) by (rewrite Z.div_div by lia; reflexivity).
  repeat split.
  - rewrite E, Z.div_div by lia. reflexivity.
  - now rewrite E.
  - pose proof (Z.div_mod x 10 ltac:(lia)) as D.
    pose proof (Z.mod_pos_bound x 10 ltac:(lia)) as B.
    pose proof (Z.div_mod (x / 10) 100 ltac:(lia)) as D1.
    pose proof (Z.mod_pos_bound (x / 10) 100 ltac:(lia)) as B1.
    pose proof (Z.mod_pos_bound x 1000 ltac:(lia)) as B2.
    assert (M : x mod 1000 = 10 * ((x / 10) mod 100) + x mod 10).
    { symmetry. apply Z.mod_unique with (q := x / 10 / 100); lia. }
    rewrite M. symmetry.
    apply Z.div_unique with (r := x mod 10); lia.
Qed.

(** X12.  Two times from zero to the greatest safe integer are displayed
    alike exactly when they agree up to the hundredth of a second; so times
    that are multiples of ten milliseconds, as the clock's always are, can be
    told apart on the display. *)
Theorem formatTime_tells_hundredths (x y : Z) :
  0 <= x <= Double.max_safe -> 0 <= y <= Double.max_safe ->
  (formatTime x = formatTime y <-> x / 10 = y / 10)
  /\ (x mod 10 = 0 -> y mod 10 = 0 -> formatTime x = formatTime y -> x = y).
Proof.
  intros Sx Sy.
  assert (Hx : 0 <= x) by lia. assert (Hy : 0 <= y) by lia.
  assert (Hiff : formatTime x = formatTime y <-> x / 10 = y / 10).
  { rewrite (formatTime_safe x Sx), (formatTime_safe y Sy). split.
    - intros E. injection E as E.
      destruct (formatTime_fields_nonneg x Hx) as (Mx & Sx' & Cx).
      destruct (formatTime_fields_nonneg y Hy) as (My & Sy' & Cy).
      apply digits_split in E as [Em E];
        [|reflexivity|now apply padStart_digits|now apply padStart_digits].
      apply digits_split in E as [Es Ec];
        [|reflexivity|now apply padStart_digits|now apply padStart_digits].
      apply (f_equal digits_value) in Em, Es, Ec.
      rewrite !digits_value_padStart in Em, Es, Ec by assumption.
      rewrite (hundredths_fields x Hx), (hundredths_fields y Hy).
      congruence.
    - intros E.
      destruct (fields_of_hundredths x Hx) as (-> & -> & ->).
      destruct (fields_of_hundredths y Hy) as (-> & -> & ->).
      now rewrite E. }
  split; [exact Hiff|].
  intros Mx My E. apply Hiff in E.
  pose proof (Z.div_mod x 10 ltac:(lia)). pose proof (Z.div_mod y 10 ltac:(lia)).
  lia.
Qed.

Lemma formatTime_tells_hundredths_witness :
  (formatTime 61234 = formatTime 61239 <-> 61234 / 10 = 61239 / 10)
  /\ (61234 mod 10 = 0 -> 61239 mod 10 = 0 ->
      formatTime 61234 = formatTime 61239 -> 61234 = 61239).
Proof.
  apply (formatTime_tells_hundredths 61234 61239); unfold Double.max_safe; lia.
Defined.

(** C7, as the claim has it, fails beyond the safe integers.  The number
    [2^57 + 1120] is a non-negative integer of the language; a thousandth of
    it rounds up to the next whole number, and the seconds field is 17 where
    [(x / 1000) mod 60] is 16. *)
Lemma formatTime_beyond_safe :
  0 <= 144115188075856992
  /\ Double.is_double 144115188075856992 = true
  /\ formatTime 144115188075856992
     = Some (js "2401919801264" ++ js ":" ++ js "17" ++ js "." ++ js "99")
  /\ digits_value (js "17") = Some 17
  /\ (144115188075856992 / 1000) mod 60 = 16
  /\ ~ (exists mm ss cc : jsstring,
          formatTime 144115188075856992 = Some (mm ++ js ":" ++ ss ++ js "." ++ cc)
          /\ digits_value ss = Some ((144115188075856992 / 1000) mod 60)
          /\ List.length ss = 2%nat
          /\ List.length cc = 2%nat).
Proof.
  assert (E : formatTime 144115188075856992
              = Some (js "2401919801264" ++ js ":" ++ js "17" ++ js "." ++ js "99"))
    by (vm_compute; reflexivity).
  split; [discriminate|].
  split; [vm_compute; reflexivity|].
  split; [exact E|].
  split; [vm_compute; reflexivity|].
  split; [vm_compute; reflexivity|].
  intros (mm & ss & cc & H & Hv & Ls & Lc).
  rewrite E in H. clear E. injection H as H.
  destruct ss as [|s1 [|s2 [|]]]; simpl in Ls; try lia.
  destruct cc as [|c1 [|c2 [|]]]; simpl in Lc; try lia.
  clear Ls Lc.
  assert (H' : List.rev (js "2401919801264:17.99")
               = List.rev (mm ++ [58; s1; s2; 46; c1; c2]%N))
    by (f_equal; exact H).
  clear H. rewrite rev_app_distr in H'.
  change (List.rev (js "2401919801264:17.99"))
    with [57; 57; 46; 55; 49; 58; 52; 54; 50; 49; 48; 56; 57; 49; 57; 49;
          48; 52; 50]%N in H'.
  change (List.rev [58; s1; s2; 46; c1; c2]%N) with [c2; c1; 46; s2; s1; 58]%N in H'.
  cbn [Datatypes.app] in H'.
  inversion H'; subst.
  vm_compute in Hv. inversion Hv.
Qed.

(* ================================================================== *)
(** ** The interval *)

Lemma timers_in_order_rerender (before after : bool) (ts : Interval.Timers) :
  timers_in_order before ts ->
  timers_in_order after (Interval.rerender before after ts).
Proof.
  intros (Hn & Href & Hact). unfold Interval.rerender.
  destruct before, after; cbn [Bool.eqb];
    try exact (conj Hn (conj Href Hact)).
  - (* the clock stops *)
    destruct Hact as (id & Er & Ea).
    destruct (Href id Er) as [Hz Hlt].
    unfold Interval.cleanup, Interval.effect, Interval.clear_current.
    rewrite Er. destruct (N.eqb_spec id 0); [contradiction|].
    cbn [Interval.clearInterval Interval.intervalRef Interval.active Interval.next_id].
    rewrite Er. destruct (N.eqb_spec id 0); [contradiction|].
    cbn [Interval.clearInterval Interval.intervalRef Interval.active Interval.next_id].
    unfold timers_in_order.
    cbn [Interval.clearInterval Interval.intervalRef Interval.active Interval.next_id].
    rewrite Ea. cbn [List.filter]. rewrite N.eqb_refl. simpl.
    repeat split; try assumption; apply Href; assumption.
  - (* the clock starts *)
    unfold Interval.cleanup, Interval.effect, Interval.clear_current,
      Interval.setInterval.
    assert (E : Interval.active
                  match Interval.intervalRef ts with
                  | Some id => if (id =? 0)%N then ts else Interval.clearInterval id ts
                  | None => ts
                  end = []
                /\ Interval.next_id
                     match Interval.intervalRef ts with
                     | Some id => if (id =? 0)%N then ts else Interval.clearInterval id ts
                     | None => ts
                     end = Interval.next_id ts).
    { destruct (Interval.intervalRef ts) as [id|]; [|auto].
      destruct (id =? 0)%N; [auto|]. simpl. rewrite Hact. auto. }
    destruct E as [Ea En].
    unfold timers_in_order.
    cbn [Interval.active Interval.next_id Interval.intervalRef].
    rewrite Ea, En.
    repeat split.
    + lia.
    + inversion H; subst. assumption.
    + inversion H; subst. lia.
    + eexists. split; reflexivity.
Qed.

Lemma timers_in_order_step (pe : PageEvent) (p : Page) :
  timers_in_order (isRunning (app (browser p))) (timers p) ->
  timers_in_order (isRunning (app (browser (page_step pe p)))) (timers (page_step pe p)).
Proof.
  intros H. destruct pe as [bt|id]; simpl.
  - now apply timers_in_order_rerender.
  - destruct (existsb (N.eqb id) (Interval.active (timers p))); simpl; assumption.
Qed.

Lemma timers_in_order_run (pes : list PageEvent) (p : Page) :
  timers_in_order (isRunning (app (browser p))) (timers p) ->
  timers_in_order (isRunning (app (browser (page_run pes p))))
                  (timers (page_run pes p)).
Proof.
  unfold page_run. revert p.
  induction pes as [|pe pes IH]; intros p H; simpl; [assumption|].
  apply IH, timers_in_order_step, H.
Qed.

Lemma timers_in_order_opened (st : storage) (first_id : N) :
  (0 < first_id)%N ->
  timers_in_order (isRunning (app (browser (page_opened st first_id))))
                  (timers (page_opened st first_id)).
Proof.
  intros H. simpl. repeat split; simpl; try lia; discriminate.
Qed.

(** X13.  Timers are numbered from a positive number on.  Then, after any
    sequence of clicks and timer callbacks, the page has exactly one live
    timer while the clock runs, the one [intervalRef] holds, and none while
    it is stopped; and leaving the page leaves no timer behind. *)
Theorem interval_never_leaks (pes : list PageEvent) (st : storage) (first_id : N) :
  (0 < first_id)%N ->
  let p := page_run pes (page_opened st first_id) in
  (isRunning (app (browser p)) = true ->
     exists id, Interval.intervalRef (timers p) = Some id
                /\ Interval.active (timers p) = [id])
  /\ (isRunning (app (browser p)) = false -> Interval.active (timers p) = [])
  /\ Interval.active (unmount p) = [].
Proof.
  intros Hf p.
  pose proof (timers_in_order_run pes _ (timers_in_order_opened st first_id Hf)) as H.
  fold p in H. destruct H as (Hn & Href & Hact).
  split; [|split].
  - intros E. now rewrite E in Hact.
  - intros E. now rewrite E in Hact.
  - unfold unmount, Interval.cleanup, Interval.clear_current.
    destruct (isRunning (app (browser p))).
    + destruct Hact as (id & Er & Ea). rewrite Er.
      destruct (Href id Er) as [Hz _].
      destruct (N.eqb_spec id 0); [contradiction|].
      simpl. rewrite Ea. simpl. now rewrite N.eqb_refl.
    + destruct (Interval.intervalRef (timers p)) as [id|]; [|assumption].
      destruct (id =? 0)%N; [assumption|]. simpl. now rewrite Hact.
Qed.

Lemma interval_never_leaks_witness :
  Interval.active
    (unmount (page_run [Click ClickStartStop; Fire 5; Click ClickStartStop;
                        Click ClickStartStop; Fire 6]
                       (page_opened None 5))) = [].
Proof.
  apply (interval_never_leaks
           [Click ClickStartStop; Fire 5; Click ClickStartStop;
            Click ClickStartStop; Fire 6] None 5).
  reflexivity.
Defined.

Lemma page_step_browser (pe : PageEvent) (p : Page) :
  timers_in_order (isRunning (app (browser p))) (timers p) ->
  browser (page_step pe p) = run (trace_of [pe] p) (browser p).
Proof.
  intros (_ & _ & Hact). destruct pe as [bt|id]; simpl; [reflexivity|].
  destruct p as [[[t r laps last ss] st] ts].
  cbn [browser timers app isRunning] in *.
  destruct (existsb (N.eqb id) (Interval.active ts)) eqn:E; [|reflexivity].
  destruct r; [reflexivity|].
  rewrite Hact in E. discriminate.
Qed.

(** X14.  On such a page the callback of a timer runs only while the clock
    runs, and what it does is the tick of the clock; so the component with
    its timers goes through the same states as the component driven by
    button events and ticks. *)
Theorem page_follows_events (pes : list PageEvent) (st : storage) (first_id : N) :
  (0 < first_id)%N ->
  browser (page_run pes (page_opened st first_id))
  = run (trace_of pes (page_opened st first_id)) (opened st)
  /\ (forall id,
        In id (Interval.active (timers (page_run pes (page_opened st first_id)))) ->
        isRunning (app (browser (page_run pes (page_opened st first_id)))) = true).
Proof.
  intros Hf.
  pose proof (timers_in_order_opened st first_id Hf) as H0.
  split.
  - change (opened st) with (browser (page_opened st first_id)).
    generalize dependent (page_opened st first_id). clear Hf.
    induction pes as [|pe pes IH]; intros p H; [reflexivity|].
    cbn [page_run fold_left trace_of].
    unfold run. rewrite fold_left_app. fold (run (trace_of pes (page_step pe p))).
    pose proof (page_step_browser pe p H) as E.
    cbn [trace_of] in E. rewrite app_nil_r in E. unfold run in E at 1.
    rewrite <- E.
    apply (IH (page_step pe p)), timers_in_order_step, H.
  - intros id Hin.
    pose proof (timers_in_order_run pes _ H0) as (_ & _ & Hact).
    destruct (isRunning (app (browser (page_run pes (page_opened st first_id)))));
      [reflexivity|].
    rewrite Hact in Hin. destruct Hin.
Qed.

Lemma page_follows_events_witness :
  browser (page_run [Click ClickStartStop; Fire 5; Click ClickLap;
                     Click ClickStartStop; Fire 5] (page_opened None 5))
  = run (trace_of [Click ClickStartStop; Fire 5; Click ClickLap;
                   Click ClickStartStop; Fire 5] (page_opened None 5))
        (opened None).
Proof.
  apply (page_follows_events
           [Click ClickStartStop; Fire 5; Click ClickLap;
            Click ClickStartStop; Fire 5] None 5).
  reflexivity.
Defined.

(* ================================================================== *)
(** ** Opening the page *)

Lemma eqb_refl (a : jsstring) : JsString.eqb a a = true.
Proof. now apply eqb_eq. Qed.

Lemma to_LapTime_of_LapTime (lap : LapTime.t) :
  safe_LapTime lap = true -> to_LapTime (JSON.of_LapTime lap) = Some lap.
Proof.
  unfold safe_LapTime, to_LapTime, JSON.of_LapTime. intros H.
  rewrite !eqb_refl. cbn [andb]. rewrite H. now destruct lap.
Qed.

Lemma to_list_map {A} (f : JSON.value -> option A) (g : A -> JSON.value)
      (ok : A -> bool) (l : list A) :
  (forall x, ok x = true -> f (g x) = Some x) ->
  forallb ok l = true -> to_list f (List.map g l) = Some l.
Proof.
  intros Hfg. induction l as [|x l IH]; simpl; [reflexivity|].
  intros H. apply andb_true_iff in H as [Hx Hl].
  now rewrite (Hfg x Hx), (IH Hl).
Qed.

Lemma to_Session_of_Session (x : Session.t) :
  safe_Session x = true -> to_Session (JSON.of_Session x) = Some x.
Proof.
  unfold safe_Session, to_Session, JSON.of_Session. intros H.
  apply andb_true_iff in H as [Ht Hl].
  rewrite !eqb_refl. cbn [andb]. rewrite Ht.
  rewrite (to_list_map to_LapTime JSON.of_LapTime safe_LapTime _
             to_LapTime_of_LapTime Hl).
  now destruct x.
Qed.

Lemma loadEffect_saveEffect (ss : list Session.t) :
  loadEffect (saveEffect ss) = Normal (mkLoaded (Some (JSON.of_sessions ss)) false).
Proof.
  unfold loadEffect, saveEffect, JSON_parse.
  rewrite JSONRoundTrip.parse_stringify.
  rewrite JSONRoundTrip.stringify_eq. reflexivity.
Qed.

(** X15.  Opening the page on a storage without the key, with an empty
    text or with a text that is not JSON gives the initial state with an
    empty history, and leaves the text [[]] under the key: a text that could
    not be read is overwritten. *)
Theorem mount_without_history (st : storage) :
  st = None \/ st = Some [] \/ (exists text, st = Some text /\ JSON.parse text = None) ->
  mount st = Some (mkBrowser initialState (Some (js "[]")))
  /\ in_sync (mkBrowser initialState (Some (js "[]"))).
Proof.
  intros H. split; [|reflexivity].
  unfold mount, loadEffect, JSON_parse.
  destruct H as [->|[->|(text & -> & E)]]; try reflexivity.
  rewrite E. destruct text; reflexivity.
Qed.

Lemma mount_without_history_witness :
  mount (Some (js "{oops")) = Some (mkBrowser initialState (Some (js "[]")))
  /\ in_sync (mkBrowser initialState (Some (js "[]"))).
Proof.
  apply (mount_without_history (Some (js "{oops"))).
  right. right. exists (js "{oops"). split; reflexivity.
Defined.

(** X16.  Once the stored text follows the history, closing the page after
    any sequence of events and opening it again brings back the history as it
    was, with the same text in the storage, as long as its numbers are in the
    safe range; the clock and the laps of the run in progress are lost. *)
Theorem reopening_keeps_history (es : list Event) (b : Browser) :
  in_sync b ->
  forallb safe_Session (sessions (app (run es b))) = true ->
  mount (stored (run es b))
  = Some (mkBrowser (mkApp 0 false [] 0 (sessions (app (run es b))))
                    (stored (run es b))).
Proof.
  intros Hs Hsafe. apply (in_sync_run es) in Hs. unfold in_sync in Hs.
  rewrite Hs. unfold mount. rewrite loadEffect_saveEffect.
  cbn [setSessions_arg]. unfold to_sessions, JSON.of_sessions.
  rewrite (to_list_map to_Session JSON.of_Session safe_Session _
             to_Session_of_Session Hsafe).
  reflexivity.
Qed.

Lemma reopening_keeps_history_witness :
  mount (stored (run [StartStop; Tick; Lap; Tick; Reset 1700000005000 (js "later");
                      StartStop; Tick] sample_browser))
  = Some (mkBrowser
            (mkApp 0 false [] 0
               (sessions (app (run [StartStop; Tick; Lap; Tick;
                                    Reset 1700000005000 (js "later");
                                    StartStop; Tick] sample_browser))))
            (stored (run [StartStop; Tick; Lap; Tick; Reset 1700000005000 (js "later");
                          StartStop; Tick] sample_browser))).
Proof.
  apply (reopening_keeps_history
           [StartStop; Tick; Lap; Tick; Reset 1700000005000 (js "later");
            StartStop; Tick] sample_browser).
  - reflexivity.
  - vm_compute. reflexivity.
Defined.
